(** * The component registry of [src/scene/models/Model.js]

    A shallow embedding of the index-maintenance code of the xeokit
    [Model] class: [_addComponent], [_removeComponent], [clear] and the
    three lazily rebuilt id-list getters, followed by the properties the
    specification states about them.

    JavaScript objects used as maps are association lists kept in the
    order in which the engine enumerates their own properties.  The
    registries of a scene live in a heap indexed by their ids, since
    ownership transfer and the destroy call-back reach from one registry
    into another.

    Property names are strings and [numComponents] is a natural number.
    Reads go through the prototype chain as in the source; a write
    through a name inherited from [Object.prototype] lands on an object
    outside the registry and is not followed.  What [Model] inherits
    from [Group], and [Model.destroy], are left out. *)

From Stdlib Require Import String Ascii List Bool Arith NArith Lia.
Import ListNotations.
Open Scope string_scope.
Open Scope list_scope.

(** ** Plain JavaScript objects used as maps *)

Module JsObj.

Definition t (V : Type) : Type := list (string * V).

Definition empty {V : Type} : t V := [].

(** [Object.prototype] supplies every plain object with these names;
    reading one of them through [o[k]] yields a (truthy) function or
    object even when [o] has no such own property. *)
Definition ObjectPrototype : list string :=
  [ "constructor"; "__defineGetter__"; "__defineSetter__";
    "hasOwnProperty"; "__lookupGetter__"; "__lookupSetter__";
    "isPrototypeOf"; "propertyIsEnumerable"; "toString"; "valueOf";
    "__proto__"; "toLocaleString" ].

Definition inherited (k : string) : bool :=
  existsb (String.eqb k) ObjectPrototype.

(** Own-property lookup: [o.hasOwnProperty(k) ? o[k] : undefined]. *)
Fixpoint getOwn {V : Type} (o : t V) (k : string) : option V :=
  match o with
  | [] => None
  | (k', v) :: o' => if String.eqb k k' then Some v else getOwn o' k
  end.

(** The three outcomes of the expression [o[k]]. *)
Inductive lookup (V : Type) : Type :=
| Own (v : V)
| Inherited
| Undefined.
Arguments Own {V} v.
Arguments Inherited {V}.
Arguments Undefined {V}.

Definition getProp {V : Type} (o : t V) (k : string) : lookup V :=
  match getOwn o k with
  | Some v => Own v
  | None => if inherited k then Inherited else Undefined
  end.

(** A property name is an array index when it is the canonical decimal
    form of an integer below 2^32 - 1; such names are enumerated first,
    in ascending numeric order, the others follow in creation order. *)
Definition digit (a : ascii) : option N :=
  let n := N_of_ascii a in
  if ((48 <=? n) && (n <=? 57))%N then Some (n - 48)%N else None.

Fixpoint digits (s : string) (acc : N) : option N :=
  match s with
  | EmptyString => Some acc
  | String a s' =>
      match digit a with
      | Some d => digits s' (10 * acc + d)%N
      | None => None
      end
  end.

Definition arrayIndex (k : string) : option N :=
  match k with
  | EmptyString => None
  | String a rest =>
      if Ascii.eqb a "0" && negb (String.eqb rest "") then None
      else match digits k 0 with
           | Some n => if (n <=? 4294967294)%N then Some n else None
           | None => None
           end
  end.

Fixpoint insertIndex {V : Type} (n : N) (k : string) (v : V) (o : t V) : t V :=
  match o with
  | [] => [(k, v)]
  | (k', v') :: o' =>
      match arrayIndex k' with
      | Some n' =>
          if (n' <? n)%N then (k', v') :: insertIndex n k v o'
          else (k, v) :: (k', v') :: o'
      | None => (k, v) :: (k', v') :: o'
      end
  end.

Definition addProp {V : Type} (k : string) (v : V) (o : t V) : t V :=
  match arrayIndex k with
  | Some n => insertIndex n k v o
  | None => o ++ [(k, v)]
  end.

Fixpoint replaceProp {V : Type} (k : string) (v : V) (o : t V) : t V :=
  match o with
  | [] => []
  | (k', v') :: o' =>
      if String.eqb k k' then (k, v) :: o' else (k', v') :: replaceProp k v o'
  end.

(** [o[k] = v] on an own data property: an existing key keeps its place. *)
Definition setProp {V : Type} (o : t V) (k : string) (v : V) : t V :=
  match getOwn o k with
  | Some _ => replaceProp k v o
  | None => addProp k v o
  end.

(** [delete o[k]]. *)
Definition deleteProp {V : Type} (o : t V) (k : string) : t V :=
  filter (fun kv => negb (String.eqb k (fst kv))) o.

(** [Object.keys(o)], also the order of [for (k in o)] over own keys. *)
Definition ownKeys {V : Type} (o : t V) : list string := map fst o.

(** The own values, in enumeration order. *)
Definition ownValues {V : Type} (o : t V) : list V := map snd o.

End JsObj.

Import JsObj.

(** Truthiness of an optional string property: [undefined], [null] and
    the empty string are falsy. *)
Definition truthy (s : option string) : option string :=
  match s with
  | Some x => if String.eqb x "" then None else Some x
  | None => None
  end.

(** ** Components *)

(** The part of a component the registry reads.  [scene] names the
    owning scene.  The [model] back-reference is mutable and is kept in
    the world below.

    [destroy()] is a method of the component class, which is not part of
    this file.  Modelled from the spec: [destroy()] notifies, and the
    component is expected to call back [_removeComponent] on its current
    registry as part of its teardown; [selfRemoves] tells whether this
    component does so. *)
Record Component : Type := mkComponent {
  id : string;
  type : string;
  scene : string;
  entityType : option string;
  guid : option string;
  isObject : bool;
  isMesh : bool;
  selfRemoves : bool
}.

Definition Component_eq_dec (a b : Component) : {a = b} + {a <> b}.
Proof.
  decide equality;
    try apply bool_dec; try apply string_dec;
    decide equality; apply string_dec.
Defined.

(** ** The registry *)

Record Model : Type := mkModel {
  modelId : string;
  modelScene : string;
  components : JsObj.t Component;
  numComponents : nat;
  types : JsObj.t (JsObj.t Component);
  objects : JsObj.t Component;
  guidObjects : JsObj.t Component;
  meshes : JsObj.t Component;
  entities : JsObj.t Component;
  entityTypes : JsObj.t (JsObj.t Component);
  _objectGUIDs : option (list string);
  _entityIds : option (list string);
  _entityTypeIds : option (list string)
}.

(** [init]: every map empty, the counter zero, the caches unset. *)
Definition init (this scn : string) : Model :=
  {| modelId := this; modelScene := scn;
     components := empty; numComponents := 0; types := empty;
     objects := empty; guidObjects := empty; meshes := empty;
     entities := empty; entityTypes := empty;
     _objectGUIDs := None; _entityIds := None; _entityTypeIds := None |}.

(** [types = this.types[t]; if (!types) types = this.types[t] = {};
    types[id] = c].  When [t] names a property inherited from
    [Object.prototype] the write lands on that inherited object and the
    registry's own map is left as it is. *)
Definition addToSubMap (o : JsObj.t (JsObj.t Component)) (t : string)
    (c : Component) : JsObj.t (JsObj.t Component) :=
  match getProp o t with
  | Own sub => setProp o t (setProp sub (id c) c)
  | Inherited => o
  | Undefined => setProp o t (setProp empty (id c) c)
  end.

(** [sub = this.entityTypes[t]; if (sub) delete sub[id]]. *)
Definition deleteFromSubMap (o : JsObj.t (JsObj.t Component)) (t : string)
    (k : string) : JsObj.t (JsObj.t Component) :=
  match getProp o t with
  | Own sub => setProp o t (deleteProp sub k)
  | Inherited => o
  | Undefined => o
  end.

(** Lines 205-233 of [_addComponent]: the insertion into the indices. *)
Definition attach (m : Model) (c : Component) : Model :=
  let withEntity :=
    if isObject c then truthy (entityType c) else None in
  let withGuid :=
    if isObject c then truthy (guid c) else None in
  {| modelId := modelId m; modelScene := modelScene m;
     components := setProp (components m) (id c) c;
     numComponents := S (numComponents m);
     types := addToSubMap (types m) (type c) c;
     objects :=
       if isObject c then setProp (objects m) (id c) c else objects m;
     guidObjects :=
       match withGuid with
       | Some _ => setProp (guidObjects m) (id c) c
       | None => guidObjects m
       end;
     meshes :=
       if isObject c && isMesh c then setProp (meshes m) (id c) c
       else meshes m;
     entities :=
       match withEntity with
       | Some _ => setProp (entities m) (id c) c
       | None => entities m
       end;
     entityTypes :=
       match withEntity with
       | Some et => addToSubMap (entityTypes m) et c
       | None => entityTypes m
       end;
     _objectGUIDs :=
       match withGuid with Some _ => None | None => _objectGUIDs m end;
     _entityIds :=
       match withEntity with Some _ => None | None => _entityIds m end;
     _entityTypeIds :=
       match withEntity with Some _ => None | None => _entityTypeIds m end |}.

(** [_removeComponent(component)]. *)
Definition _removeComponent (m : Model) (c : Component) : Model :=
  {| modelId := modelId m; modelScene := modelScene m;
     components := deleteProp (components m) (id c);
     numComponents := numComponents m;
     types := types m;
     objects := deleteProp (objects m) (id c);
     guidObjects :=
       match truthy (guid c) with
       | Some g => deleteProp (guidObjects m) g
       | None => guidObjects m
       end;
     meshes := deleteProp (meshes m) (id c);
     entities :=
       match truthy (entityType c) with
       | Some _ => deleteProp (entities m) (id c)
       | None => entities m
       end;
     entityTypes :=
       match truthy (entityType c) with
       | Some et => deleteFromSubMap (entityTypes m) et (id c)
       | None => entityTypes m
       end;
     _objectGUIDs :=
       match truthy (guid c) with Some _ => None | None => _objectGUIDs m end;
     _entityIds :=
       match truthy (entityType c) with
       | Some _ => None | None => _entityIds m end;
     _entityTypeIds :=
       match truthy (entityType c) with
       | Some _ => None | None => _entityTypeIds m end |}.

(** The assignments that end [clear]: five maps and the counter. *)
Definition resetIndices (m : Model) : Model :=
  {| modelId := modelId m; modelScene := modelScene m;
     components := empty; numComponents := 0; types := empty;
     objects := empty; guidObjects := guidObjects m; meshes := empty;
     entities := empty; entityTypes := entityTypes m;
     _objectGUIDs := _objectGUIDs m; _entityIds := _entityIds m;
     _entityTypeIds := _entityTypeIds m |}.

(** ** The world: registries, back-references, observable events *)

Inductive Diagnostic : Type :=
| ComponentNotFound
| NotAComponentType (t : string)
| DifferentScene.

Inductive Event : Type :=
| Warned (d : Diagnostic)       (* [this.warn(...)] *)
| Errored (d : Diagnostic)      (* [this.error(...)] *)
| Destroyed (c : Component).    (* [c.destroy()] was called *)

(** [models] is the heap of registries, by id.  [modelOf] holds the
    [model] property of the components that have one. *)
Record World : Type := mkWorld {
  models : JsObj.t Model;
  modelOf : list (Component * string);
  events : list Event
}.

Definition emptyWorld : World :=
  {| models := empty; modelOf := []; events := [] |}.

Fixpoint getModelOf (l : list (Component * string)) (c : Component)
    : option string :=
  match l with
  | [] => None
  | (c', o) :: l' =>
      if Component_eq_dec c c' then Some o else getModelOf l' c
  end.

Definition emit (e : Event) (w : World) : World :=
  {| models := models w; modelOf := modelOf w; events := events w ++ [e] |}.

Definition setModel (this : string) (m : Model) (w : World) : World :=
  {| models := setProp (models w) this m;
     modelOf := modelOf w; events := events w |}.

(** Runs a method body on the registry [this]. *)
Definition onModel (this : string) (f : Model -> Model) (w : World) : World :=
  match getOwn (models w) this with
  | Some m => setModel this (f m) w
  | None => w
  end.

(** Modelled from the spec: the attachment hook [_addedToModel] of the
    component class (not in this file) sets the component's [model]
    back-reference to the registry that attached it. *)
Definition _addedToModel (c : Component) (this : string) (w : World) : World :=
  {| models := models w;
     modelOf := (c, this) :: modelOf w;
     events := events w |}.

(** Modelled from the spec: [destroy()] of the component class.  The
    call is recorded; a component that follows the self-removal protocol
    then calls [this.model._removeComponent(this)]. *)
Definition destroyComponent (c : Component) (w : World) : World :=
  let w1 := emit (Destroyed c) w in
  if selfRemoves c then
    match getModelOf (modelOf w1) c with
    | Some owner => onModel owner (fun m => _removeComponent m c) w1
    | None => w1
    end
  else w1.

(** [for (var id in this.X) if (this.X.hasOwnProperty(id)) this.X[id].destroy()].
    The keys are those of the object when the loop starts; a key deleted
    before its turn is not visited. *)
Fixpoint destroyEach (field : Model -> JsObj.t Component) (this : string)
    (keys : list string) (w : World) : World :=
  match keys with
  | [] => w
  | k :: keys' =>
      match getOwn (models w) this with
      | Some m =>
          match getOwn (field m) k with
          | Some c => destroyEach field this keys' (destroyComponent c w)
          | None => destroyEach field this keys' w
          end
      | None => w
      end
  end.

Definition destroyAllIn (field : Model -> JsObj.t Component) (this : string)
    (w : World) : World :=
  match getOwn (models w) this with
  | Some m => destroyEach field this (ownKeys (field m)) w
  | None => w
  end.

(** [clear()]. *)
Definition clear (this : string) (w : World) : World :=
  let w1 := destroyAllIn meshes this w in
  let w2 := destroyAllIn components this w1 in
  onModel this resetIndices w2.

(** The getters. Each returns the cached array when there is one. *)
Definition readCache (cache : Model -> option (list string))
    (fresh : Model -> list string)
    (store : Model -> list string -> Model)
    (this : string) (w : World) : World * list string :=
  match getOwn (models w) this with
  | Some m =>
      match cache m with
      | Some l => (w, l)
      | None => (setModel this (store m (fresh m)) w, fresh m)
      end
  | None => (w, [])
  end.

Definition storeObjectGUIDs (m : Model) (l : list string) : Model :=
  {| modelId := modelId m; modelScene := modelScene m;
     components := components m; numComponents := numComponents m;
     types := types m; objects := objects m; guidObjects := guidObjects m;
     meshes := meshes m; entities := entities m;
     entityTypes := entityTypes m;
     _objectGUIDs := Some l; _entityIds := _entityIds m;
     _entityTypeIds := _entityTypeIds m |}.

Definition storeEntityIds (m : Model) (l : list string) : Model :=
  {| modelId := modelId m; modelScene := modelScene m;
     components := components m; numComponents := numComponents m;
     types := types m; objects := objects m; guidObjects := guidObjects m;
     meshes := meshes m; entities := entities m;
     entityTypes := entityTypes m;
     _objectGUIDs := _objectGUIDs m; _entityIds := Some l;
     _entityTypeIds := _entityTypeIds m |}.

Definition storeEntityTypeIds (m : Model) (l : list string) : Model :=
  {| modelId := modelId m; modelScene := modelScene m;
     components := components m; numComponents := numComponents m;
     types := types m; objects := objects m; guidObjects := guidObjects m;
     meshes := meshes m; entities := entities m;
     entityTypes := entityTypes m;
     _objectGUIDs := _objectGUIDs m; _entityIds := _entityIds m;
     _entityTypeIds := Some l |}.

Definition objectGUIDs : string -> World -> World * list string :=
  readCache _objectGUIDs (fun m => ownKeys (guidObjects m)) storeObjectGUIDs.

Definition entityTypeIds : string -> World -> World * list string :=
  readCache _entityTypeIds (fun m => ownKeys (entityTypes m))
    storeEntityTypeIds.

Definition entityIds : string -> World -> World * list string :=
  readCache _entityIds (fun m => ownKeys (entities m)) storeEntityIds.

(** ** The scene-side collaborators of [_addComponent] *)

Section Registry.

(** [scene.components] of each scene, [core.isComponentType] and the
    constructors reached through [new window[type](scene, cfg)] belong
    to other files; they are parameters here. *)
Variable sceneComponents : string -> JsObj.t Component.
Variable isComponentType : string -> bool.
Variable Config : Type.
Variable cfgType : Config -> option string.
Variable construct : string -> string -> Config -> Component.

(** The three shapes of the argument of [_addComponent]. *)
Inductive Ref : Type :=
| ById (k : string)            (* a string or a number *)
| ByConfig (cfg : Config)      (* a plain object *)
| Instance (c : Component).

(** [component.type || "Component"]. *)
Definition typeTag (cfg : Config) : string :=
  match truthy (cfgType cfg) with
  | Some t => t
  | None => "Component"
  end.

(** Lines 181-194: from the argument to a component, or a diagnostic.
    An id that only names a property inherited by [scene.components]
    yields a function, which fails the scene test that follows. *)
Definition resolve (m : Model) (r : Ref) : Event + Component :=
  match r with
  | ById k =>
      match getProp (sceneComponents (modelScene m)) k with
      | Own c => inr c
      | Inherited => inl (Errored DifferentScene)
      | Undefined => inl (Warned ComponentNotFound)
      end
  | ByConfig cfg =>
      if isComponentType (typeTag cfg) then
        inr (construct (typeTag cfg) (modelScene m) cfg)
      else inl (Errored (NotAComponentType (typeTag cfg)))
  | Instance c => inr c
  end.

(** [_addComponent(component)]; [None] stands for [undefined]. *)
Definition _addComponent (this : string) (r : Ref) (w : World)
    : World * option Component :=
  match getOwn (models w) this with
  | None => (w, None)
  | Some m =>
      match resolve m r with
      | inl e => (emit e w, None)
      | inr c =>
          if negb (String.eqb (scene c) (modelScene m)) then
            (emit (Errored DifferentScene) w, None)
          else
            match getProp (components m) (id c) with
            | Own _ | Inherited => (w, None)
            | Undefined =>
                let w1 :=
                  match getModelOf (modelOf w) c with
                  | Some owner =>
                      if negb (String.eqb owner this) then
                        onModel owner (fun o => _removeComponent o c) w
                      else w
                  | None => w
                  end in
                (_addedToModel c this
                   (onModel this (fun m1 => attach m1 c) w1), Some c)
            end
      end
  end.

(** ** Histories *)

Inductive Op : Type :=
| Create (this scn : string)                 (* [new Model], i.e. [init] *)
| Add (this : string) (r : Ref)
| Remove (this : string) (c : Component)
| Clear (this : string)
| ReadObjectGUIDs (this : string)
| ReadEntityTypeIds (this : string)
| ReadEntityIds (this : string).

Definition step (op : Op) (w : World) : World :=
  match op with
  | Create this scn =>
      match getOwn (models w) this with
      | Some _ => w
      | None => setModel this (init this scn) w
      end
  | Add this r => fst (_addComponent this r w)
  | Remove this c => onModel this (fun m => _removeComponent m c) w
  | Clear this => clear this w
  | ReadObjectGUIDs this => fst (objectGUIDs this w)
  | ReadEntityTypeIds this => fst (entityTypeIds this w)
  | ReadEntityIds this => fst (entityIds this w)
  end.

Definition run (ops : list Op) (w : World) : World :=
  fold_left (fun w op => step op w) ops w.

(** ** Well-formed histories and the registry invariant *)

(** A component is registered when its scene lists it under its id;
    ids are unique within a scene, so at most one component is. *)
Definition registered (c : Component) : Prop :=
  getOwn (sceneComponents (scene c)) (id c) = Some c.

(** The caller's side of an operation: instances handed to the
    registry are live components of a scene, and a component is only
    removed from a registry of its own scene. *)
Definition wfOp (w : World) (op : Op) : Prop :=
  match op with
  | Add _ (Instance c) => registered c
  | Add _ (ByConfig cfg) => forall t s, registered (construct t s cfg)
  | Remove this c =>
      registered c /\
      forall m, getOwn (models w) this = Some m -> scene c = modelScene m
  | _ => True
  end.

Inductive reachable : World -> Prop :=
| reachable_empty : reachable emptyWorld
| reachable_step (w : World) (op : Op) :
    reachable w -> wfOp w op -> reachable (step op w).

(** A history each of whose operations is well formed when its turn
    comes. *)
Fixpoint wfHistory (w : World) (ops : list Op) : Prop :=
  match ops with
  | [] => True
  | op :: ops' => wfOp w op /\ wfHistory (step op w) ops'
  end.

Record okModel (m : Model) : Prop := {
  ok_components : forall k c,
    getOwn (components m) k = Some c ->
    id c = k /\ registered c /\ scene c = modelScene m;
  ok_objects : forall k c,
    getOwn (objects m) k = Some c ->
    getOwn (components m) k = Some c /\ isObject c = true;
  ok_meshes : forall k c,
    getOwn (meshes m) k = Some c ->
    getOwn (objects m) k = Some c /\ isMesh c = true;
  ok_entities : forall k c,
    getOwn (entities m) k = Some c ->
    getOwn (objects m) k = Some c /\ truthy (entityType c) <> None;
  ok_flagged : forall k c,
    getOwn (components m) k = Some c ->
    isObject c && isMesh c = true ->
    getOwn (meshes m) k = Some c;
  ok_components_nodup : NoDup (ownKeys (components m));
  ok_meshes_nodup : NoDup (ownKeys (meshes m));
  ok_guid_cache : forall l,
    _objectGUIDs m = Some l -> l = ownKeys (guidObjects m);
  ok_type_cache : forall l,
    _entityTypeIds m = Some l -> l = ownKeys (entityTypes m)
}.

Record okWorld (w : World) : Prop := {
  ok_models : forall this m,
    getOwn (models w) this = Some m -> okModel m;
  ok_modelOf : forall c owner,
    getModelOf (modelOf w) c = Some owner ->
    registered c /\
    exists m, getOwn (models w) owner = Some m /\ scene c = modelScene m;
  ok_owner : forall this m k c,
    getOwn (models w) this = Some m ->
    getOwn (components m) k = Some c ->
    getModelOf (modelOf w) c = Some this
}.

End Registry.

Arguments ById {Config} k.
Arguments ByConfig {Config} cfg.
Arguments Instance {Config} c.
Arguments Create {Config} this scn.
Arguments Add {Config} this r.
Arguments Remove {Config} this c.
Arguments Clear {Config} this.
Arguments ReadObjectGUIDs {Config} this.
Arguments ReadEntityTypeIds {Config} this.
Arguments ReadEntityIds {Config} this.

(** What a registry holds after [destroy()] has been called on each of
    [cs] in turn, when all of them name it as their owner. *)
Definition selfRemoveAll (cs : list Component) (m : Model) : Model :=
  fold_left (fun m c => if selfRemoves c then _removeComponent m c else m)
    cs m.

(** The ids that [selfRemoveAll cs] deletes. *)
Definition removedIds (cs : list Component) : list string :=
  map id (filter selfRemoves cs).

(** A cached [entityIds] list, when there is one, is the current one. *)
Definition entityIdsFresh (m : Model) : Prop :=
  forall l, _entityIds m = Some l -> l = ownKeys (entities m).

Definition worldFresh (w : World) : Prop :=
  forall this m, getOwn (models w) this = Some m -> entityIdsFresh m.

(** ** The rest of the class, and predicates for what follows *)

(** [destroyAll()], the deprecated name of [clear()]. *)
Definition destroyAll (this : string) (w : World) : World := clear this w.

Section Acceptance.

Variable sceneComponents : string -> JsObj.t Component.
Variable isComponentType : string -> bool.
Variable Config : Type.
Variable cfgType : Config -> option string.
Variable construct : string -> string -> Config -> Component.

(** The conditions under which [_addComponent] gets past its early
    returns (lines 181-201) and attaches [c]. *)
Definition accepts (m : Model) (r : Ref Config) (c : Component) : Prop :=
  resolve sceneComponents isComponentType Config cfgType construct m r
    = inr c /\
  scene c = modelScene m /\
  getOwn (components m) (id c) = None /\ inherited (id c) = false.

End Acceptance.

(** [P] holds of every registry of the world. *)
Definition allModels (P : Model -> Prop) (w : World) : Prop :=
  forall this m, getOwn (models w) this = Some m -> P m.

(** Three properties of a registry that every history keeps. *)
Definition countBoundsKeys (m : Model) : Prop :=
  length (ownKeys (components m)) <= numComponents m.



(** [objects] and [meshes] hold exactly the flagged components. *)
Definition flaggedExactly (m : Model) : Prop :=
  forall k c,
    (getOwn (objects m) k = Some c <->
     getOwn (components m) k = Some c /\ isObject c = true) /\
    (getOwn (meshes m) k = Some c <->
     getOwn (components m) k = Some c /\ isObject c && isMesh c = true).

(** Every object with an entity type is in [entities]. *)
Definition entitiesComplete (m : Model) : Prop :=
  forall k c, getOwn (objects m) k = Some c ->
    truthy (entityType c) <> None -> getOwn (entities m) k = Some c.

(** ** A small scene to run the code on *)

Module Demo.

Definition wall1 : Component :=
  {| id := "wall1"; type := "Object"; scene := "scene";
     entityType := Some "wall"; guid := Some "G-1";
     isObject := true; isMesh := false; selfRemoves := true |}.

Definition m1 : Component :=
  {| id := "m1"; type := "Mesh"; scene := "scene";
     entityType := None; guid := None;
     isObject := true; isMesh := true; selfRemoves := true |}.

(** An entity whose [destroy()] does not call back into its registry. *)
Definition wall2 : Component :=
  {| id := "wall2"; type := "Object"; scene := "scene";
     entityType := Some "wall"; guid := Some "G-2";
     isObject := true; isMesh := false; selfRemoves := false |}.

(** A component of another scene. *)
Definition alien : Component :=
  {| id := "x1"; type := "Object"; scene := "other";
     entityType := None; guid := None;
     isObject := true; isMesh := false; selfRemoves := true |}.

Definition sceneComponents (s : string) : JsObj.t Component :=
  if String.eqb s "scene" then
    setProp (setProp (setProp empty "wall1" wall1) "m1" m1) "wall2" wall2
  else if String.eqb s "other" then setProp empty "x1" alien
  else empty.

Definition isComponentType (t : string) : bool :=
  existsb (String.eqb t) ["Component"; "Object"; "Mesh"].

(** A configuration is the blueprint of the component to build. *)
Definition Config : Type := Component.

Definition cfgType (cfg : Config) : option string := Some (type cfg).

Definition construct (t s : string) (cfg : Config) : Component :=
  {| id := id cfg; type := t; scene := s;
     entityType := entityType cfg; guid := guid cfg;
     isObject := isObject cfg; isMesh := isMesh cfg;
     selfRemoves := selfRemoves cfg |}.

Definition add : string -> Ref Config -> World -> World * option Component :=
  _addComponent sceneComponents isComponentType Config cfgType construct.

Definition perform : Op Config -> World -> World :=
  step sceneComponents isComponentType Config cfgType construct.

Definition performAll : list (Op Config) -> World -> World :=
  run sceneComponents isComponentType Config cfgType construct.

Definition modelAt (this : string) (w : World) : Model :=
  match getOwn (models w) this with
  | Some m => m
  | None => init this ""
  end.

(** Two registries of one scene; the first holds an entity with a
    guid, a mesh, and an entity that does not remove itself. *)
Definition history : list (Op Config) :=
  [ Create "A" "scene"; Create "B" "scene";
    Add "A" (Instance wall1); Add "A" (ById "m1");
    Add "A" (Instance wall2); ReadEntityIds "A" ].

Definition world : World := performAll history emptyWorld.

(** Registry [A] holding only the entity [wall1]. *)
Definition withWall1 : World :=
  performAll [Create "A" "scene"; Add "A" (Instance wall1)] emptyWorld.

(** Registry [A] holding only [wall2], its id list read once. *)
Definition withWall2 : World :=
  performAll [Create "A" "scene"; Add "A" (Instance wall2);
              ReadEntityIds "A"] emptyWorld.

(** [wall1] attached to [A], then added to [B]. *)
Definition transferred : World :=
  performAll [Create "A" "scene"; Create "B" "scene";
              Add "A" (Instance wall1); Add "B" (Instance wall1)]
    emptyWorld.

(** The scene without [wall2]: every component in it calls back on
    [destroy()]. *)
Definition tidyComponents (s : string) : JsObj.t Component :=
  if String.eqb s "scene" then
    setProp (setProp empty "wall1" wall1) "m1" m1
  else empty.

Definition tidyHistory : list (Op Config) :=
  [ Create "A" "scene"; Add "A" (Instance wall1); Add "A" (ById "m1");
    ReadEntityIds "A"; Clear "A"; Add "A" (Instance wall1) ].

Definition tidyWorld : World :=
  run tidyComponents isComponentType Config cfgType construct
    tidyHistory emptyWorld.

(** A component that is no object. *)
Definition geom1 : Component :=
  {| id := "geom1"; type := "Geometry"; scene := "scene";
     entityType := None; guid := None;
     isObject := false; isMesh := false; selfRemoves := true |}.

(** A configuration with a type tag that names no component type. *)
Definition bogus : Config :=
  {| id := "z"; type := "Bogus"; scene := "scene";
     entityType := None; guid := None;
     isObject := false; isMesh := false; selfRemoves := true |}.

End Demo.

(** * Properties *)

(** ** Facts about property maps *)

Module JsObjFacts.
Section Facts.
Context {V : Type}.
Implicit Types (o : JsObj.t V) (k : string) (v : V).

Lemma getOwn_replaceProp o k v k' :
  getOwn (replaceProp k v o) k' =
  if String.eqb k' k then option_map (fun _ => v) (getOwn o k) else getOwn o k'.
Proof.
  induction o as [|[k0 v0] o IH]; simpl.
  - destruct (String.eqb k' k); reflexivity.
  - destruct (String.eqb_spec k k0) as [->|Hk]; simpl.
    + destruct (String.eqb_spec k' k0); reflexivity.
    + rewrite IH. destruct (String.eqb_spec k' k0) as [->|Hk'].
      * destruct (String.eqb_spec k0 k); [congruence|reflexivity].
      * reflexivity.
Qed.

Lemma getOwn_insertIndex n o k v k' :
  getOwn o k = None ->
  getOwn (insertIndex n k v o) k' =
  if String.eqb k' k then Some v else getOwn o k'.
Proof.
  induction o as [|[k0 v0] o IH]; simpl; intros Hk.
  - reflexivity.
  - destruct (String.eqb_spec k k0) as [->|Hne]; [discriminate|].
    destruct (arrayIndex k0) as [n0|]; [destruct (n0 <? n)%N|]; simpl;
      try reflexivity.
    rewrite (IH Hk).
    destruct (String.eqb_spec k' k0) as [->|]; [|reflexivity].
    destruct (String.eqb_spec k0 k); [congruence|reflexivity].
Qed.

Lemma getOwn_app o k v k' :
  getOwn (o ++ [(k, v)]) k' =
  match getOwn o k' with
  | Some x => Some x
  | None => if String.eqb k' k then Some v else None
  end.
Proof.
  induction o as [|[k0 v0] o IH]; simpl; [reflexivity|].
  destruct (String.eqb k' k0); [reflexivity|apply IH].
Qed.

Lemma getOwn_setProp o k v k' :
  getOwn (setProp o k v) k' = if String.eqb k' k then Some v else getOwn o k'.
Proof.
  unfold setProp. destruct (getOwn o k) eqn:E.
  - rewrite getOwn_replaceProp, E. reflexivity.
  - unfold addProp. destruct (arrayIndex k).
    + apply getOwn_insertIndex, E.
    + rewrite getOwn_app.
      destruct (String.eqb_spec k' k) as [->|]; [rewrite E; reflexivity|].
      destruct (getOwn o k'); reflexivity.
Qed.

Lemma getOwn_setProp_same o k v : getOwn (setProp o k v) k = Some v.
Proof. rewrite getOwn_setProp, String.eqb_refl. reflexivity. Qed.

Lemma getOwn_setProp_other o k v k' :
  k' <> k -> getOwn (setProp o k v) k' = getOwn o k'.
Proof.
  intros H. rewrite getOwn_setProp.
  destruct (String.eqb_spec k' k); [contradiction|reflexivity].
Qed.

Lemma getOwn_deleteProp o k k' :
  getOwn (deleteProp o k) k' = if String.eqb k' k then None else getOwn o k'.
Proof.
  unfold deleteProp. induction o as [|[k0 v0] o IH]; simpl.
  - destruct (String.eqb k' k); reflexivity.
  - destruct (String.eqb_spec k k0) as [->|Hne]; simpl.
    + rewrite IH. destruct (String.eqb k' k0); reflexivity.
    + rewrite IH. destruct (String.eqb_spec k' k0) as [->|]; [|reflexivity].
      destruct (String.eqb_spec k0 k); [congruence|reflexivity].
Qed.

Lemma getOwn_deleteProp_same o k : getOwn (deleteProp o k) k = None.
Proof. rewrite getOwn_deleteProp, String.eqb_refl. reflexivity. Qed.

Lemma getOwn_deleteProp_other o k k' :
  k' <> k -> getOwn (deleteProp o k) k' = getOwn o k'.
Proof.
  intros H. rewrite getOwn_deleteProp.
  destruct (String.eqb_spec k' k); [contradiction|reflexivity].
Qed.

Lemma In_ownKeys o k : In k (ownKeys o) <-> getOwn o k <> None.
Proof.
  unfold ownKeys. induction o as [|[k0 v0] o IH]; simpl.
  - split; [tauto|congruence].
  - destruct (String.eqb_spec k k0) as [->|Hne].
    + split; [discriminate|auto].
    + rewrite <- IH. split; [intros [E|H]; [congruence|exact H]|auto].
Qed.

Lemma getOwn_In o k v : getOwn o k = Some v -> In v (ownValues o).
Proof.
  unfold ownValues. induction o as [|[k0 v0] o IH]; simpl; [discriminate|].
  destruct (String.eqb k k0); [intros [= ->]; auto|auto].
Qed.

Lemma In_ownValues o v : In v (ownValues o) -> exists k, In (k, v) o.
Proof.
  unfold ownValues. intros H. apply in_map_iff in H as [[k v'] [E H]].
  simpl in E. subst. eauto.
Qed.

Lemma In_getOwn o k v :
  NoDup (ownKeys o) -> In (k, v) o -> getOwn o k = Some v.
Proof.
  unfold ownKeys. induction o as [|[k0 v0] o IH]; simpl; [tauto|].
  intros Hnd [E|H]; inversion Hnd; subst.
  - injection E as -> ->. rewrite String.eqb_refl. reflexivity.
  - destruct (String.eqb_spec k k0) as [->|]; [|auto].
    exfalso. apply H2. change k0 with (fst (k0, v)). apply in_map, H.
Qed.

Lemma ownKeys_replaceProp o k v :
  getOwn o k <> None -> ownKeys (replaceProp k v o) = ownKeys o.
Proof.
  unfold ownKeys. induction o as [|[k0 v0] o IH]; simpl; [reflexivity|].
  destruct (String.eqb_spec k k0) as [->|]; simpl; [reflexivity|].
  intros H. f_equal. auto.
Qed.

Lemma In_insertIndex n o k v k' :
  In k' (ownKeys (insertIndex n k v o)) <-> k' = k \/ In k' (ownKeys o).
Proof.
  unfold ownKeys. induction o as [|[k0 v0] o IH]; simpl.
  - intuition.
  - destruct (arrayIndex k0) as [n0|]; [destruct (n0 <? n)%N|]; simpl;
      try rewrite IH; intuition.
Qed.

Lemma NoDup_insertIndex n o k v :
  ~ In k (ownKeys o) -> NoDup (ownKeys o) ->
  NoDup (ownKeys (insertIndex n k v o)).
Proof.
  induction o as [|[k0 v0] o IH]; simpl; intros Hk Hnd.
  - constructor; [simpl; tauto|constructor].
  - inversion Hnd; subst.
    destruct (arrayIndex k0) as [n0|]; [destruct (n0 <? n)%N|]; simpl.
    + constructor.
      * change (~ In k0 (ownKeys (insertIndex n k v o))).
        rewrite In_insertIndex. intros [->|H]; [apply Hk; auto|auto].
      * apply IH; [intros H; apply Hk; auto|assumption].
    + constructor; [exact Hk|exact Hnd].
    + constructor; [exact Hk|exact Hnd].
Qed.

Lemma NoDup_setProp o k v :
  NoDup (ownKeys o) -> NoDup (ownKeys (setProp o k v)).
Proof.
  intros Hnd. unfold setProp. destruct (getOwn o k) eqn:E.
  - rewrite ownKeys_replaceProp; [assumption|congruence].
  - assert (Hk : ~ In k (ownKeys o)) by (rewrite In_ownKeys; tauto).
    unfold addProp. destruct (arrayIndex k).
    + apply NoDup_insertIndex; assumption.
    + unfold ownKeys in *. rewrite map_app. simpl.
      apply NoDup_app; [assumption|repeat constructor; simpl; tauto|].
      intros x Hx [<-|[]]. auto.
Qed.

Lemma ownKeys_deleteProp o k :
  ownKeys (deleteProp o k) =
  filter (fun k' => negb (String.eqb k k')) (ownKeys o).
Proof.
  unfold ownKeys, deleteProp. induction o as [|[k0 v0] o IH]; simpl;
    [reflexivity|].
  destruct (String.eqb k k0); simpl; rewrite IH; reflexivity.
Qed.

Lemma NoDup_deleteProp o k :
  NoDup (ownKeys o) -> NoDup (ownKeys (deleteProp o k)).
Proof. rewrite ownKeys_deleteProp. apply NoDup_filter. Qed.

Lemma In_ownKeys_setProp o k v k' :
  In k' (ownKeys (setProp o k v)) <-> k' = k \/ In k' (ownKeys o).
Proof.
  rewrite !In_ownKeys, getOwn_setProp.
  destruct (String.eqb_spec k' k) as [->|Hne].
  - split; [auto|discriminate].
  - split; [auto|intros [?|?]; [contradiction|assumption]].
Qed.

Lemma In_ownKeys_deleteProp o k k' :
  In k' (ownKeys (deleteProp o k)) <-> k' <> k /\ In k' (ownKeys o).
Proof.
  rewrite !In_ownKeys, getOwn_deleteProp.
  destruct (String.eqb_spec k' k) as [->|Hne]; intuition congruence.
Qed.

End Facts.
End JsObjFacts.

Import JsObjFacts.

Lemma truthy_Some s x : truthy s = Some x -> s = Some x /\ x <> "".
Proof.
  unfold truthy. destruct s as [y|]; [|discriminate].
  destruct (String.eqb_spec y ""); [discriminate|].
  intros [= ->]. auto.
Qed.

Section ModelInvariant.

Variable sceneComponents : string -> JsObj.t Component.

Local Abbreviation registered := (registered sceneComponents).
Local Abbreviation okModel := (okModel sceneComponents).

Lemma registered_unique c c' :
  registered c -> registered c' ->
  scene c = scene c' -> id c = id c' -> c = c'.
Proof.
  unfold registered. intros H H' Hs Hi.
  rewrite Hs, Hi in H. congruence.
Qed.

Lemma okModel_init this scn : okModel (init this scn).
Proof.
  constructor; simpl; try discriminate; constructor.
Qed.

Lemma okModel_resetIndices m : okModel m -> okModel (resetIndices m).
Proof.
  intros [].
  constructor; simpl; try discriminate; try constructor; assumption.
Qed.

Lemma okModel_remove m c :
  okModel m -> registered c -> scene c = modelScene m ->
  okModel (_removeComponent m c).
Proof.
  intros Hm Hreg Hsc. destruct Hm as [K1 K2 K3 K4 K5 N1 N2 G1 G2].
  constructor; simpl.
  - intros k c0. rewrite getOwn_deleteProp.
    destruct (String.eqb k (id c)); [discriminate|apply K1].
  - intros k c0. rewrite !getOwn_deleteProp.
    destruct (String.eqb k (id c)); [discriminate|apply K2].
  - intros k c0. rewrite !getOwn_deleteProp.
    destruct (String.eqb k (id c)); [discriminate|apply K3].
  - intros k c0 H. rewrite getOwn_deleteProp.
    destruct (truthy (entityType c)) eqn:Et.
    + rewrite getOwn_deleteProp in H.
      destruct (String.eqb k (id c)); [discriminate|apply K4, H].
    + destruct (K4 _ _ H) as [Ho Ht].
      destruct (String.eqb_spec k (id c)) as [->|]; [|auto].
      exfalso. destruct (K2 _ _ Ho) as [Hc _].
      destruct (K1 _ _ Hc) as (Hi & Hr & Hs).
      assert (c0 = c) by (apply registered_unique; congruence).
      subst. contradiction.
  - intros k c0. rewrite !getOwn_deleteProp.
    destruct (String.eqb k (id c)); [discriminate|apply K5].
  - apply NoDup_deleteProp, N1.
  - apply NoDup_deleteProp, N2.
  - destruct (truthy (guid c)); [discriminate|apply G1].
  - destruct (truthy (entityType c)); [discriminate|apply G2].
Qed.

Lemma okModel_attach m c :
  okModel m -> registered c -> scene c = modelScene m ->
  getOwn (components m) (id c) = None ->
  okModel (attach m c).
Proof.
  intros Hm Hreg Hsc Hnew. destruct Hm as [K1 K2 K3 K4 K5 N1 N2 G1 G2].
  assert (Hobj : getOwn (objects m) (id c) = None).
  { destruct (getOwn (objects m) (id c)) eqn:E; [|reflexivity].
    apply K2 in E. destruct E. congruence. }
  assert (Hmesh : getOwn (meshes m) (id c) = None).
  { destruct (getOwn (meshes m) (id c)) eqn:E; [|reflexivity].
    apply K3 in E. destruct E. congruence. }
  assert (Hent : getOwn (entities m) (id c) = None).
  { destruct (getOwn (entities m) (id c)) eqn:E; [|reflexivity].
    apply K4 in E. destruct E. congruence. }
  constructor; simpl.
  - intros k c0. rewrite getOwn_setProp.
    destruct (String.eqb_spec k (id c)) as [->|]; [|apply K1].
    intros [= <-]. auto.
  - intros k c0. rewrite getOwn_setProp.
    destruct (isObject c) eqn:Io.
    + rewrite getOwn_setProp.
      destruct (String.eqb_spec k (id c)) as [->|]; [|apply K2].
      intros [= <-]. auto.
    + destruct (String.eqb_spec k (id c)) as [->|]; [|apply K2].
      congruence.
  - intros k c0.
    destruct (isObject c) eqn:Io; simpl.
    + destruct (isMesh c) eqn:Im; rewrite ?getOwn_setProp;
        (destruct (String.eqb_spec k (id c)) as [->|]; [|apply K3]).
      * intros [= <-]. auto.
      * congruence.
    + intros H. destruct (K3 _ _ H) as [Ho ?]. split; [|assumption].
      destruct (K2 _ _ Ho). destruct (String.eqb_spec k (id c)); congruence.
  - intros k c0.
    destruct (isObject c) eqn:Io; simpl.
    + destruct (truthy (entityType c)) eqn:Et; rewrite ?getOwn_setProp;
        (destruct (String.eqb_spec k (id c)) as [->|]; [|apply K4]).
      * intros [= <-]. split; [reflexivity|congruence].
      * congruence.
    + intros H. destruct (K4 _ _ H) as [Ho ?]. split; [|assumption].
      destruct (K2 _ _ Ho). destruct (String.eqb_spec k (id c)); congruence.
  - intros k c0. rewrite getOwn_setProp.
    destruct (String.eqb_spec k (id c)) as [->|Hne].
    + intros [= <-] Hf. rewrite Hf. apply getOwn_setProp_same.
    + intros H Hf. destruct (isObject c && isMesh c);
        [rewrite getOwn_setProp_other by assumption|]; auto.
  - apply NoDup_setProp, N1.
  - destruct (isObject c && isMesh c); [apply NoDup_setProp|]; exact N2.
  - destruct (if isObject c then truthy (guid c) else None);
      [discriminate|apply G1].
  - destruct (if isObject c then truthy (entityType c) else None);
      [discriminate|apply G2].
Qed.

Lemma okModel_storeObjectGUIDs m :
  okModel m -> okModel (storeObjectGUIDs m (ownKeys (guidObjects m))).
Proof.
  intros []. constructor; simpl; try assumption. congruence.
Qed.

Lemma okModel_storeEntityTypeIds m :
  okModel m -> okModel (storeEntityTypeIds m (ownKeys (entityTypes m))).
Proof.
  intros []. constructor; simpl; try assumption. congruence.
Qed.

Lemma okModel_storeEntityIds m l :
  okModel m -> okModel (storeEntityIds m l).
Proof.
  intros []. constructor; simpl; assumption.
Qed.

End ModelInvariant.

(** ** The invariant is kept by every operation *)

Lemma getOwn_onModel this f w k :
  getOwn (models (onModel this f w)) k =
  if String.eqb k this then option_map f (getOwn (models w) this)
  else getOwn (models w) k.
Proof.
  unfold onModel. destruct (getOwn (models w) this) eqn:E; simpl.
  - apply getOwn_setProp.
  - destruct (String.eqb_spec k this) as [->|]; [exact E|reflexivity].
Qed.

Lemma modelOf_onModel this f w : modelOf (onModel this f w) = modelOf w.
Proof. unfold onModel. destruct (getOwn (models w) this); reflexivity. Qed.

Lemma events_onModel this f w : events (onModel this f w) = events w.
Proof. unfold onModel. destruct (getOwn (models w) this); reflexivity. Qed.

Section WorldInvariant.

Variable sceneComponents : string -> JsObj.t Component.

Local Abbreviation registered := (registered sceneComponents).
Local Abbreviation okModel := (okModel sceneComponents).
Local Abbreviation okWorld := (okWorld sceneComponents).

Lemma okWorld_empty : okWorld emptyWorld.
Proof. constructor; simpl; discriminate. Qed.

Lemma okWorld_emit e w : okWorld w -> okWorld (emit e w).
Proof. intros []. constructor; simpl; assumption. Qed.

(** A method that keeps the registry sound, its scene, and adds no
    component keeps the world sound. *)
Lemma okWorld_onModel this f w :
  okWorld w ->
  (forall m, getOwn (models w) this = Some m ->
     okModel (f m) /\ modelScene (f m) = modelScene m /\
     forall k c, getOwn (components (f m)) k = Some c ->
                 getOwn (components m) k = Some c) ->
  okWorld (onModel this f w).
Proof.
  intros [W1 W2 W3] Hf. constructor.
  - intros x m. rewrite getOwn_onModel.
    destruct (String.eqb_spec x this) as [->|]; [|apply W1].
    destruct (getOwn (models w) this) as [m0|] eqn:E; [|discriminate].
    intros [= <-]. apply (Hf m0 eq_refl).
  - intros c owner. rewrite modelOf_onModel. intros H.
    destruct (W2 _ _ H) as (Hr & m & Hm & Hs). split; [assumption|].
    rewrite getOwn_onModel.
    destruct (String.eqb_spec owner this) as [->|]; [|eauto].
    rewrite Hm. simpl. eexists. split; [reflexivity|].
    destruct (Hf m Hm) as (_ & -> & _). assumption.
  - intros x m k c. rewrite getOwn_onModel, modelOf_onModel.
    destruct (String.eqb_spec x this) as [->|]; [|apply W3].
    destruct (getOwn (models w) this) as [m0|] eqn:E; [|discriminate].
    intros [= <-] H. eapply W3; [exact E|].
    apply (Hf m0 eq_refl), H.
Qed.

Lemma okWorld_remove this c w :
  okWorld w -> registered c ->
  (forall m, getOwn (models w) this = Some m -> scene c = modelScene m) ->
  okWorld (onModel this (fun m => _removeComponent m c) w).
Proof.
  intros Hw Hr Hs. apply okWorld_onModel; [assumption|].
  intros m Hm. split; [|split; [reflexivity|]].
  - apply okModel_remove; [apply (ok_models _ _ Hw _ _ Hm)|assumption|auto].
  - simpl. intros k c0. rewrite getOwn_deleteProp.
    destruct (String.eqb k (id c)); [discriminate|auto].
Qed.

Lemma okWorld_destroyComponent c w :
  okWorld w -> okWorld (destroyComponent c w).
Proof.
  intros Hw. unfold destroyComponent.
  destruct (selfRemoves c); [|apply okWorld_emit, Hw].
  simpl. destruct (getModelOf (modelOf w) c) as [owner|] eqn:E;
    [|apply okWorld_emit, Hw].
  destruct (ok_modelOf _ _ Hw _ _ E) as (Hr & m & Hm & Hs).
  apply okWorld_remove; [apply okWorld_emit, Hw|assumption|].
  simpl. intros m' Hm'. congruence.
Qed.

Lemma okWorld_destroyEach field this keys w :
  okWorld w -> okWorld (destroyEach field this keys w).
Proof.
  revert w. induction keys as [|k keys IH]; simpl; intros w Hw;
    [assumption|].
  destruct (getOwn (models w) this) as [m|]; [|assumption].
  destruct (getOwn (field m) k) as [c|]; apply IH;
    [apply okWorld_destroyComponent|]; assumption.
Qed.

Lemma okWorld_destroyAllIn field this w :
  okWorld w -> okWorld (destroyAllIn field this w).
Proof.
  intros Hw. unfold destroyAllIn.
  destruct (getOwn (models w) this); [apply okWorld_destroyEach|];
    assumption.
Qed.

Lemma okWorld_clear this w : okWorld w -> okWorld (clear this w).
Proof.
  intros Hw. unfold clear. apply okWorld_onModel.
  - apply okWorld_destroyAllIn, okWorld_destroyAllIn, Hw.
  - intros m Hm. split; [|split; [reflexivity|simpl; discriminate]].
    apply okModel_resetIndices.
    eapply ok_models; [|exact Hm].
    apply okWorld_destroyAllIn, okWorld_destroyAllIn, Hw.
Qed.

Lemma okWorld_readCache cache fresh store this w :
  okWorld w ->
  (forall m, okModel m ->
     okModel (store m (fresh m)) /\
     modelScene (store m (fresh m)) = modelScene m /\
     components (store m (fresh m)) = components m) ->
  okWorld (fst (readCache cache fresh store this w)).
Proof.
  intros Hw Hs. unfold readCache.
  destruct (getOwn (models w) this) as [m|] eqn:E; [|assumption].
  destruct (cache m); [assumption|]. simpl.
  replace (setModel this (store m (fresh m)) w)
    with (onModel this (fun m => store m (fresh m)) w)
    by (unfold onModel; rewrite E; reflexivity).
  apply okWorld_onModel; [assumption|].
  intros m' Hm'. destruct (Hs m' (ok_models _ _ Hw _ _ Hm')) as (? & ? & Hc).
  split; [assumption|split; [assumption|]].
  intros k c0. rewrite Hc. auto.
Qed.

Lemma okWorld_create this scn w :
  okWorld w -> getOwn (models w) this = None ->
  okWorld (setModel this (init this scn) w).
Proof.
  intros [W1 W2 W3] Hnew. constructor; simpl.
  - intros x m. rewrite getOwn_setProp.
    destruct (String.eqb_spec x this) as [->|]; [|apply W1].
    intros [= <-]. apply okModel_init.
  - intros c owner H. destruct (W2 _ _ H) as (Hr & m & Hm & Hs).
    split; [assumption|]. exists m. split; [|assumption].
    rewrite getOwn_setProp.
    destruct (String.eqb_spec owner this); congruence.
  - intros x m k c. rewrite getOwn_setProp.
    destruct (String.eqb_spec x this) as [->|]; [|apply W3].
    intros [= <-]. discriminate.
Qed.

(** Attaching a component that no other registry holds. *)
Lemma okWorld_attach this c w m :
  okWorld w -> getOwn (models w) this = Some m ->
  registered c -> scene c = modelScene m ->
  getOwn (components m) (id c) = None ->
  (forall x mx, x <> this -> getOwn (models w) x = Some mx ->
     getOwn (components mx) (id c) <> Some c) ->
  okWorld (_addedToModel c this (onModel this (fun m1 => attach m1 c) w)).
Proof.
  intros Hw Hm Hr Hs Hnew Hothers. destruct Hw as [W1 W2 W3].
  constructor; simpl.
  - intros x mx. rewrite getOwn_onModel.
    destruct (String.eqb_spec x this) as [->|]; [|apply W1].
    rewrite Hm. intros [= <-].
    apply okModel_attach; eauto.
  - intros c0 owner. rewrite modelOf_onModel.
    destruct (Component_eq_dec c0 c) as [->|Hne].
    + intros [= <-]. split; [assumption|].
      rewrite getOwn_onModel, String.eqb_refl, Hm. simpl. eauto.
    + intros H. destruct (W2 _ _ H) as (Hr0 & m0 & Hm0 & Hs0).
      split; [assumption|]. rewrite getOwn_onModel.
      destruct (String.eqb_spec owner this) as [->|]; [|eauto].
      rewrite Hm. simpl.
      eexists; split; [reflexivity|]. simpl. congruence.
  - intros x mx k c0. rewrite getOwn_onModel, modelOf_onModel.
    destruct (String.eqb_spec x this) as [->|Hx].
    + rewrite Hm. intros [= <-]. simpl. rewrite getOwn_setProp.
      destruct (String.eqb_spec k (id c)) as [->|].
      * intros [= <-]. destruct (Component_eq_dec c c); congruence.
      * intros H. destruct (Component_eq_dec c0 c); [reflexivity|].
        eapply W3; eassumption.
    + intros Hmx H.
      destruct (Component_eq_dec c0 c) as [->|]; [|eapply W3; eassumption].
      exfalso. destruct (ok_components _ _ (W1 _ _ Hmx) _ _ H) as [<- _].
      exact (Hothers _ _ Hx Hmx H).
Qed.

Section Add.

Variable isComponentType : string -> bool.
Variable Config : Type.
Variable cfgType : Config -> option string.
Variable construct : string -> string -> Config -> Component.

Hypothesis scene_coherent : forall s k c,
  getOwn (sceneComponents s) k = Some c -> id c = k /\ scene c = s.

Local Abbreviation resolve :=
  (resolve sceneComponents isComponentType Config cfgType construct).
Local Abbreviation _addComponent :=
  (_addComponent sceneComponents isComponentType Config cfgType construct).
Local Abbreviation step :=
  (step sceneComponents isComponentType Config cfgType construct).
Local Abbreviation wfOp := (wfOp sceneComponents Config construct).
Local Abbreviation reachable :=
  (reachable sceneComponents isComponentType Config cfgType construct).

Lemma resolve_registered w this m r c :
  wfOp w (Add this r) -> resolve m r = inr c -> registered c.
Proof.
  destruct r as [k|cfg|c0]; simpl.
  - intros _. unfold getProp.
    destruct (getOwn (sceneComponents (modelScene m)) k) as [c0|] eqn:E.
    + intros [= <-]. destruct (scene_coherent _ _ _ E) as [Hi Hs].
      unfold registered. rewrite Hs, Hi. exact E.
    + destruct (inherited k); discriminate.
  - intros H. destruct (isComponentType _); [|discriminate].
    intros [= <-]. apply H.
  - intros H [= <-]. exact H.
Qed.

Lemma okWorld_add this r w :
  okWorld w -> wfOp w (Add this r) ->
  okWorld (fst (_addComponent this r w)).
Proof.
  intros Hw Hwf. unfold _addComponent.
  destruct (getOwn (models w) this) as [m|] eqn:Hm; [|assumption].
  destruct (resolve m r) as [e|c] eqn:Hres; [apply okWorld_emit, Hw|].
  pose proof (resolve_registered _ _ _ _ _ Hwf Hres) as Hr.
  destruct (String.eqb_spec (scene c) (modelScene m)) as [Hs|]; simpl;
    [|apply okWorld_emit, Hw].
  unfold getProp.
  destruct (getOwn (components m) (id c)) eqn:Hnew; [assumption|].
  destruct (inherited (id c)); [assumption|]. simpl.
  assert (Hheld : forall x mx, getOwn (models w) x = Some mx ->
            getOwn (components mx) (id c) = Some c ->
            getModelOf (modelOf w) c = Some x)
    by (intros x mx; apply (ok_owner _ _ Hw)).
  destruct (getModelOf (modelOf w) c) as [owner|] eqn:Ho.
  - destruct (String.eqb_spec owner this) as [->|Hne]; simpl.
    + apply okWorld_attach with (m := m); try assumption.
      intros x mx Hx Hmx E. specialize (Hheld _ _ Hmx E). congruence.
    + destruct (ok_modelOf _ _ Hw _ _ Ho) as (_ & mo & Hmo & Hso).
      apply okWorld_attach with (m := m); try assumption.
      * apply okWorld_remove; [assumption|assumption|].
        intros m' Hm'. congruence.
      * rewrite getOwn_onModel.
        destruct (String.eqb_spec this owner); congruence.
      * intros x mx Hx. rewrite getOwn_onModel.
        destruct (String.eqb_spec x owner) as [->|Hxo].
        -- rewrite Hmo. intros [= <-]. simpl.
           rewrite getOwn_deleteProp_same. discriminate.
        -- intros Hmx E. specialize (Hheld _ _ Hmx E). congruence.
  - apply okWorld_attach with (m := m); try assumption.
    intros x mx Hx Hmx E. specialize (Hheld _ _ Hmx E). congruence.
Qed.

Lemma okWorld_step op w :
  okWorld w -> wfOp w op -> okWorld (step op w).
Proof.
  intros Hw Hwf. destruct op as [this scn|this r|this c|this|this|this|this];
    simpl.
  - destruct (getOwn (models w) this) eqn:E; [assumption|].
    apply okWorld_create; assumption.
  - apply okWorld_add; assumption.
  - destruct Hwf. apply okWorld_remove; assumption.
  - apply okWorld_clear, Hw.
  - apply okWorld_readCache; [assumption|].
    intros m Hm. split; [apply okModel_storeObjectGUIDs, Hm|split; reflexivity].
  - apply okWorld_readCache; [assumption|].
    intros m Hm. split; [apply okModel_storeEntityTypeIds, Hm|split; reflexivity].
  - apply okWorld_readCache; [assumption|].
    intros m Hm. split; [apply okModel_storeEntityIds, Hm|split; reflexivity].
Qed.

Lemma reachable_okWorld w : reachable w -> okWorld w.
Proof.
  induction 1; [apply okWorld_empty|apply okWorld_step; assumption].
Qed.

End Add.

End WorldInvariant.

(** ** The order of destruction in [clear] *)

Lemma filter_twice {A : Type} (p q : A -> bool) (l : list A) :
  filter p (filter q l) = filter (fun x => q x && p x) l.
Proof.
  induction l as [|x l IH]; simpl; [reflexivity|].
  destruct (q x); simpl; [destruct (p x)|]; rewrite IH; reflexivity.
Qed.

Lemma selfRemoveAll_components cs m :
  components (selfRemoveAll cs m) =
  filter (fun kv => negb (existsb (String.eqb (fst kv)) (removedIds cs)))
    (components m).
Proof.
  revert m. induction cs as [|c cs IH]; intros m; simpl.
  - induction (components m) as [|kv o IHo]; simpl; [reflexivity|].
    f_equal. exact IHo.
  - rewrite IH. unfold removedIds. simpl.
    destruct (selfRemoves c); simpl; [|reflexivity].
    unfold deleteProp. rewrite filter_twice. apply filter_ext.
    intros [k v]. simpl. rewrite (String.eqb_sym k (id c)).
    destruct (String.eqb (id c) k); reflexivity.
Qed.

Lemma ownValues_filter {V : Type} (p : string * V -> bool) (q : V -> bool)
    (o : JsObj.t V) :
  (forall k v, In (k, v) o -> p (k, v) = q v) ->
  ownValues (filter p o) = filter q (ownValues o).
Proof.
  unfold ownValues. induction o as [|[k v] o IH]; simpl; intros H;
    [reflexivity|].
  rewrite <- (H k v) by auto.
  destruct (p (k, v)); simpl; rewrite IH by auto; reflexivity.
Qed.

Lemma getOwn_In_pair {V : Type} (o : JsObj.t V) k v :
  getOwn o k = Some v -> In (k, v) o.
Proof.
  induction o as [|[k0 v0] o IH]; simpl; [discriminate|].
  destruct (String.eqb_spec k k0) as [->|]; [intros [= ->]; auto|auto].
Qed.

Section Clear.

Variable sceneComponents : string -> JsObj.t Component.

Local Abbreviation okModel := (okModel sceneComponents).
Local Abbreviation okWorld := (okWorld sceneComponents).

Lemma okModel_mesh_component m k c :
  okModel m -> getOwn (meshes m) k = Some c ->
  getOwn (components m) k = Some c /\ isObject c && isMesh c = true.
Proof.
  intros Hm H. destruct (ok_meshes _ _ Hm _ _ H) as [Ho Hmesh].
  destruct (ok_objects _ _ Hm _ _ Ho) as [Hc Hobj].
  rewrite Hobj, Hmesh. auto.
Qed.

(** What [destroy()] of a component held by [this] leaves behind. *)
Lemma destroyComponent_held this w m k c :
  okWorld w -> getOwn (models w) this = Some m ->
  getOwn (components m) k = Some c ->
  events (destroyComponent c w) = events w ++ [Destroyed c] /\
  getOwn (models (destroyComponent c w)) this =
    Some (if selfRemoves c then _removeComponent m c else m).
Proof.
  intros Hw Hm Hc. unfold destroyComponent.
  destruct (selfRemoves c); [|simpl; auto].
  simpl. rewrite (ok_owner _ _ Hw _ _ _ _ Hm Hc).
  rewrite events_onModel, getOwn_onModel, String.eqb_refl. simpl.
  rewrite Hm. auto.
Qed.

Lemma destroyEach_held field this :
  field = meshes \/ field = components ->
  forall kvs w m,
    okWorld w -> getOwn (models w) this = Some m ->
    NoDup (map fst kvs) ->
    (forall k c, In (k, c) kvs -> getOwn (field m) k = Some c) ->
    events (destroyEach field this (map fst kvs) w) =
      events w ++ map Destroyed (map snd kvs) /\
    getOwn (models (destroyEach field this (map fst kvs) w)) this =
      Some (selfRemoveAll (map snd kvs) m).
Proof.
  intros Hfield. induction kvs as [|[k c] kvs IH]; intros w m Hw Hm Hnd Hin.
  - simpl. rewrite app_nil_r. auto.
  - simpl. rewrite Hm, (Hin k c) by (simpl; auto).
    inversion Hnd as [|? ? Hk Hnd']; subst.
    pose proof (ok_models _ _ Hw _ _ Hm) as Hok.
    assert (Hc : getOwn (components m) k = Some c).
    { destruct Hfield as [-> | ->]; [|apply Hin; simpl; auto].
      apply okModel_mesh_component; [assumption|apply Hin; simpl; auto]. }
    destruct (destroyComponent_held _ _ _ _ _ Hw Hm Hc) as [He Hm1].
    destruct (ok_components _ _ Hok _ _ Hc) as [Hid _].
    destruct (IH (destroyComponent c w) _
                (okWorld_destroyComponent _ _ _ Hw) Hm1 Hnd') as [He' Hm'].
    + intros k' c' H'.
      assert (Hne : k' <> id c).
      { rewrite Hid. intros ->. apply Hk.
        change k with (fst (k, c')). apply in_map, H'. }
      destruct (selfRemoves c); [|apply Hin; simpl; auto].
      destruct Hfield as [-> | ->]; simpl;
        rewrite getOwn_deleteProp_other by assumption;
        apply Hin; simpl; auto.
    + rewrite He', He, <- app_assoc. simpl. auto.
Qed.

Lemma destroyAllIn_held field this w m :
  field = meshes \/ field = components ->
  okWorld w -> getOwn (models w) this = Some m ->
  events (destroyAllIn field this w) =
    events w ++ map Destroyed (ownValues (field m)) /\
  getOwn (models (destroyAllIn field this w)) this =
    Some (selfRemoveAll (ownValues (field m)) m).
Proof.
  intros Hfield Hw Hm. unfold destroyAllIn. rewrite Hm.
  pose proof (ok_models _ _ Hw _ _ Hm) as Hok.
  assert (Hnd : NoDup (ownKeys (field m)))
    by (destruct Hfield as [-> | ->];
        [apply (ok_meshes_nodup _ _ Hok)|apply (ok_components_nodup _ _ Hok)]).
  apply destroyEach_held; try assumption.
  intros k c. apply In_getOwn, Hnd.
Qed.

(** The components left in the registry once every mesh has been
    destroyed: all but the meshes that removed themselves. *)
Lemma components_after_meshes m :
  okModel m ->
  ownValues (components (selfRemoveAll (ownValues (meshes m)) m)) =
  filter (fun c => negb (isObject c && isMesh c && selfRemoves c))
    (ownValues (components m)).
Proof.
  intros Hok. rewrite selfRemoveAll_components.
  apply ownValues_filter. intros k c Hin. simpl. f_equal.
  pose proof (In_getOwn _ _ _ (ok_components_nodup _ _ Hok) Hin) as Hc.
  destruct (ok_components _ _ Hok _ _ Hc) as [Hid _].
  destruct (isObject c && isMesh c && selfRemoves c) eqn:Hflag.
  - apply andb_true_iff in Hflag as [Hmesh Hself].
    apply existsb_exists. exists (id c). split; [|rewrite Hid; apply String.eqb_refl].
    unfold removedIds. apply in_map, filter_In. split; [|assumption].
    apply getOwn_In with (k := k). apply (ok_flagged _ _ Hok); assumption.
  - apply not_true_is_false. intros Hex.
    apply existsb_exists in Hex as (k' & Hk' & Heq).
    apply String.eqb_eq in Heq. subst k'.
    unfold removedIds in Hk'. apply in_map_iff in Hk' as (c' & Hid' & Hc').
    apply filter_In in Hc' as [Hc' Hself].
    apply In_ownValues in Hc' as [k' Hc'].
    apply (In_getOwn _ _ _ (ok_meshes_nodup _ _ Hok)) in Hc'.
    destruct (okModel_mesh_component _ _ _ Hok Hc') as [Hcc Hmesh].
    destruct (ok_components _ _ Hok _ _ Hcc) as [Hid'' _].
    assert (c' = c) by congruence. subst c'.
    rewrite Hmesh, Hself in Hflag. discriminate.
Qed.

Lemma clear_events this w m :
  okWorld w -> getOwn (models w) this = Some m ->
  events (clear this w) =
    events w ++ map Destroyed (ownValues (meshes m)) ++
    map Destroyed
      (filter (fun c => negb (isObject c && isMesh c && selfRemoves c))
         (ownValues (components m))).
Proof.
  intros Hw Hm. unfold clear. rewrite events_onModel.
  destruct (destroyAllIn_held meshes this w m (or_introl eq_refl) Hw Hm)
    as [He1 Hm1].
  destruct (destroyAllIn_held components this _ _ (or_intror eq_refl)
              (okWorld_destroyAllIn _ _ _ _ Hw) Hm1) as [He2 _].
  rewrite He2, He1, <- app_assoc.
  rewrite (components_after_meshes _ (ok_models _ _ Hw _ _ Hm)).
  reflexivity.
Qed.

Lemma meshes_are_the_flagged m c :
  okModel m -> In c (ownValues (components m)) ->
  In c (ownValues (meshes m)) <-> isObject c && isMesh c = true.
Proof.
  intros Hok Hc. apply In_ownValues in Hc as [k Hc].
  apply (In_getOwn _ _ _ (ok_components_nodup _ _ Hok)) in Hc.
  split.
  - intros H. apply In_ownValues in H as [k' H].
    apply (In_getOwn _ _ _ (ok_meshes_nodup _ _ Hok)) in H.
    apply (okModel_mesh_component _ _ _ Hok H).
  - intros H. apply getOwn_In with (k := k).
    apply (ok_flagged _ _ Hok); assumption.
Qed.

End Clear.

(** ** Soundness of reachable worlds *)

Section Reachable.

Variable sceneComponents : string -> JsObj.t Component.
Variable isComponentType : string -> bool.
Variable Config : Type.
Variable cfgType : Config -> option string.
Variable construct : string -> string -> Config -> Component.

Local Abbreviation add :=
  (_addComponent sceneComponents isComponentType Config cfgType construct).
Local Abbreviation resolve :=
  (resolve sceneComponents isComponentType Config cfgType construct).
Local Abbreviation step :=
  (step sceneComponents isComponentType Config cfgType construct).
Local Abbreviation run :=
  (run sceneComponents isComponentType Config cfgType construct).
Local Abbreviation wfHistory :=
  (wfHistory sceneComponents isComponentType Config cfgType construct).
Local Abbreviation reachable :=
  (reachable sceneComponents isComponentType Config cfgType construct).

Lemma reachable_run ops w :
  reachable w -> wfHistory w ops -> reachable (run ops w).
Proof.
  revert w. induction ops as [|op ops IH]; simpl; intros w Hw Hwf;
    [assumption|].
  destruct Hwf as [Hop Hops]. apply IH; [|assumption].
  apply reachable_step; assumption.
Qed.

(** A registry is never dropped from the heap. *)
Lemma destroyComponent_keeps_model this c w :
  getOwn (models w) this <> None ->
  getOwn (models (destroyComponent c w)) this <> None.
Proof.
  intros H. unfold destroyComponent.
  destruct (selfRemoves c); [|exact H].
  simpl. destruct (getModelOf (modelOf w) c); [|exact H].
  rewrite getOwn_onModel. destruct (String.eqb_spec this s) as [->|];
    [|exact H].
  simpl. destruct (getOwn (models w) s); [discriminate|exact H].
Qed.

Lemma destroyEach_keeps_model field this x keys w :
  getOwn (models w) this <> None ->
  getOwn (models (destroyEach field x keys w)) this <> None.
Proof.
  revert w. induction keys as [|k keys IH]; simpl; intros w H; [exact H|].
  destruct (getOwn (models w) x) as [m|]; [|exact H].
  destruct (getOwn (field m) k); apply IH;
    [apply destroyComponent_keeps_model|]; exact H.
Qed.

Lemma destroyAllIn_keeps_model field this x w :
  getOwn (models w) this <> None ->
  getOwn (models (destroyAllIn field x w)) this <> None.
Proof.
  intros H. unfold destroyAllIn.
  destruct (getOwn (models w) x); [apply destroyEach_keeps_model|]; exact H.
Qed.

(** What the closing assignments of [clear] establish, whatever the
    destroy call-backs did: five maps and the counter are reset, the
    guid index and the entity-type index are carried over. *)
Lemma clear_resets this w :
  getOwn (models w) this <> None ->
  exists m2,
    getOwn (models (destroyAllIn components this
                      (destroyAllIn meshes this w))) this = Some m2 /\
    getOwn (models (clear this w)) this = Some (resetIndices m2).
Proof.
  intros H. unfold clear.
  pose proof (destroyAllIn_keeps_model components this this _
                (destroyAllIn_keeps_model meshes this this _ H)) as H2.
  destruct (getOwn (models (destroyAllIn components this
                              (destroyAllIn meshes this w))) this)
    as [m2|] eqn:E; [|contradiction].
  exists m2. split; [reflexivity|].
  rewrite getOwn_onModel, String.eqb_refl, E. reflexivity.
Qed.

(** X26. After [clear()] the registry still exists and its [components],
    [types], [objects], [meshes] and [entities] are empty and its counter
    is zero, whatever the destroy call-backs did. *)
Theorem clear_empties_five_maps this w :
  getOwn (models w) this <> None ->
  exists m', getOwn (models (clear this w)) this = Some m' /\
    components m' = empty /\ types m' = empty /\ objects m' = empty /\
    meshes m' = empty /\ entities m' = empty /\ numComponents m' = 0.
Proof.
  intros H. destruct (clear_resets this w H) as (m2 & _ & E).
  exists (resetIndices m2). repeat split. exact E.
Qed.

(** An object whose guid differs from its id keeps its entry in
    [guidObjects] when it is removed right after being attached. *)
Lemma guid_entry_survives_remove m c g :
  isObject c = true -> truthy (guid c) = Some g -> g <> id c ->
  getOwn (guidObjects (_removeComponent (attach m c) c)) (id c) = Some c.
Proof.
  intros Ho Hg Hne. simpl. rewrite Ho, Hg.
  rewrite getOwn_deleteProp_other by congruence.
  apply getOwn_setProp_same.
Qed.

(** [_removeComponent] never touches [types] nor the counter. *)
Lemma remove_keeps_types_and_count m c :
  types (_removeComponent m c) = types m /\
  numComponents (_removeComponent m c) = numComponents m.
Proof. split; reflexivity. Qed.

Hypothesis scene_coherent : forall s k c,
  getOwn (sceneComponents s) k = Some c -> id c = k /\ scene c = s.

Lemma reachable_sound w : reachable w -> okWorld sceneComponents w.
Proof.
  apply reachable_okWorld, scene_coherent.
Qed.

(** X24. The guid list and the entity-type list are never stale: the maps
    behind them change only where their cache is dropped. *)
Theorem guid_and_type_lists_fresh this w m :
  reachable w -> getOwn (models w) this = Some m ->
  snd (objectGUIDs this w) = ownKeys (guidObjects m) /\
  snd (entityTypeIds this w) = ownKeys (entityTypes m).
Proof.
  intros Hw Hm. apply reachable_sound in Hw.
  pose proof (ok_models _ _ Hw _ _ Hm) as Hok.
  unfold objectGUIDs, entityTypeIds, readCache. rewrite Hm. split.
  - destruct (_objectGUIDs m) eqn:E; [|reflexivity].
    apply (ok_guid_cache _ _ Hok), E.
  - destruct (_entityTypeIds m) eqn:E; [|reflexivity].
    apply (ok_type_cache _ _ Hok), E.
Qed.

End Reachable.

(** ** When is [entityIds] current? *)

Lemma filter_none {A : Type} (p : A -> bool) (l : list A) :
  (forall x, In x l -> p x = false) -> filter p l = [].
Proof.
  induction l as [|x l IH]; simpl; intros H; [reflexivity|].
  rewrite (H x) by auto. apply IH. auto.
Qed.

Lemma entityIdsFresh_attach m c :
  entityIdsFresh m -> entityIdsFresh (attach m c).
Proof.
  unfold entityIdsFresh. simpl.
  destruct (if isObject c then truthy (entityType c) else None);
    [discriminate|auto].
Qed.

Lemma entityIdsFresh_remove m c :
  entityIdsFresh m -> entityIdsFresh (_removeComponent m c).
Proof.
  unfold entityIdsFresh. simpl.
  destruct (truthy (entityType c)); [discriminate|auto].
Qed.

Lemma worldFresh_onModel this f w :
  worldFresh w ->
  (forall m, getOwn (models w) this = Some m ->
     entityIdsFresh m -> entityIdsFresh (f m)) ->
  worldFresh (onModel this f w).
Proof.
  intros Hw Hf x m. rewrite getOwn_onModel.
  destruct (String.eqb_spec x this) as [->|]; [|apply Hw].
  destruct (getOwn (models w) this) as [m0|] eqn:E; [|discriminate].
  intros [= <-]. apply Hf; [reflexivity|]. apply (Hw _ _ E).
Qed.

Lemma worldFresh_destroyComponent c w :
  worldFresh w -> worldFresh (destroyComponent c w).
Proof.
  intros Hw. unfold destroyComponent.
  destruct (selfRemoves c); [|exact Hw]. simpl.
  destruct (getModelOf (modelOf w) c); [|exact Hw].
  apply worldFresh_onModel; [exact Hw|].
  intros m _. apply entityIdsFresh_remove.
Qed.

Lemma worldFresh_destroyEach field this keys w :
  worldFresh w -> worldFresh (destroyEach field this keys w).
Proof.
  revert w. induction keys as [|k keys IH]; simpl; intros w Hw; [exact Hw|].
  destruct (getOwn (models w) this) as [m|]; [|exact Hw].
  destruct (getOwn (field m) k); apply IH;
    [apply worldFresh_destroyComponent|]; exact Hw.
Qed.

Lemma worldFresh_destroyAllIn field this w :
  worldFresh w -> worldFresh (destroyAllIn field this w).
Proof.
  intros Hw. unfold destroyAllIn.
  destruct (getOwn (models w) this); [apply worldFresh_destroyEach|];
    exact Hw.
Qed.

Lemma worldFresh_readCache cache fresh store this w :
  worldFresh w ->
  (forall m, entityIdsFresh m -> entityIdsFresh (store m (fresh m))) ->
  worldFresh (fst (readCache cache fresh store this w)).
Proof.
  intros Hw Hs. unfold readCache.
  destruct (getOwn (models w) this) as [m|] eqn:E; [|exact Hw].
  destruct (cache m); [exact Hw|]. simpl.
  intros x mx. simpl. rewrite getOwn_setProp.
  destruct (String.eqb_spec x this) as [->|]; [|apply Hw].
  intros [= <-]. apply Hs, (Hw _ _ E).
Qed.

Section EntityIds.

Variable sceneComponents : string -> JsObj.t Component.
Variable isComponentType : string -> bool.
Variable Config : Type.
Variable cfgType : Config -> option string.
Variable construct : string -> string -> Config -> Component.

Local Abbreviation add :=
  (_addComponent sceneComponents isComponentType Config cfgType construct).
Local Abbreviation step :=
  (step sceneComponents isComponentType Config cfgType construct).
Local Abbreviation reachable :=
  (reachable sceneComponents isComponentType Config cfgType construct).

Lemma worldFresh_add this r w :
  worldFresh w -> worldFresh (fst (add this r w)).
Proof.
  intros Hw. unfold _addComponent.
  destruct (getOwn (models w) this) as [m|]; [|exact Hw].
  destruct (resolve _ _ _ _ _ m r) as [e|c]; [exact Hw|].
  destruct (negb (String.eqb (scene c) (modelScene m))); [exact Hw|].
  destruct (getProp (components m) (id c)); try exact Hw.
  cbn [fst]. unfold _addedToModel, worldFresh. cbn [models].
  apply worldFresh_onModel;
    [|intros m1 _; apply entityIdsFresh_attach].
  destruct (getModelOf (modelOf w) c) as [owner|]; [|exact Hw].
  destruct (negb (String.eqb owner this)); [|exact Hw].
  apply worldFresh_onModel; [exact Hw|].
  intros m1 _. apply entityIdsFresh_remove.
Qed.

Hypothesis scene_coherent : forall s k c,
  getOwn (sceneComponents s) k = Some c -> id c = k /\ scene c = s.

(** Every component of the scene follows the self-removal protocol. *)
Hypothesis protocol : forall s k c,
  getOwn (sceneComponents s) k = Some c -> selfRemoves c = true.

Lemma clear_leaves_no_component this w m :
  okWorld sceneComponents w -> getOwn (models w) this = Some m ->
  exists m2,
    getOwn (models (destroyAllIn components this
                      (destroyAllIn meshes this w))) this = Some m2 /\
    okModel sceneComponents m2 /\ components m2 = empty.
Proof.
  intros Hw Hm.
  destruct (destroyAllIn_held _ meshes this w m (or_introl eq_refl) Hw Hm)
    as [_ Hm1].
  pose proof (okWorld_destroyAllIn _ meshes this _ Hw) as Hw1.
  destruct (destroyAllIn_held _ components this _ _ (or_intror eq_refl)
              Hw1 Hm1) as [_ Hm2].
  pose proof (okWorld_destroyAllIn _ components this _ Hw1) as Hw2.
  eexists. split; [exact Hm2|]. split; [apply (ok_models _ _ Hw2 _ _ Hm2)|].
  rewrite selfRemoveAll_components. apply filter_none.
  intros [k c] Hin. simpl.
  pose proof (ok_models _ _ Hw1 _ _ Hm1) as Hok1.
  pose proof (In_getOwn _ _ _ (ok_components_nodup _ _ Hok1) Hin) as Hc.
  destruct (ok_components _ _ Hok1 _ _ Hc) as (Hid & Hreg & _).
  apply negb_false_iff, existsb_exists. exists k.
  split; [|apply String.eqb_refl].
  unfold removedIds. rewrite <- Hid. apply in_map, filter_In.
  split; [apply getOwn_In with (k := k), Hc|].
  apply (protocol _ _ _ Hreg).
Qed.

Lemma okModel_no_component_no_entity m :
  okModel sceneComponents m -> components m = empty -> entities m = empty.
Proof.
  intros Hok Hc. destruct (entities m) as [|[k c] o] eqn:E; [reflexivity|].
  assert (H : getOwn (entities m) k = Some c)
    by (rewrite E; simpl; rewrite String.eqb_refl; reflexivity).
  destruct (ok_entities _ _ Hok _ _ H) as [Ho _].
  destruct (ok_objects _ _ Hok _ _ Ho) as [Hcomp _].
  rewrite Hc in Hcomp. discriminate.
Qed.

Lemma worldFresh_clear this w :
  okWorld sceneComponents w -> worldFresh w -> worldFresh (clear this w).
Proof.
  intros Hok Hw. unfold clear. apply worldFresh_onModel.
  - apply worldFresh_destroyAllIn, worldFresh_destroyAllIn, Hw.
  - intros m2 Hm2 Hfresh l. simpl. intros Hl.
    rewrite (Hfresh l Hl).
    destruct (getOwn (models w) this) as [m|] eqn:Hm.
    + destruct (clear_leaves_no_component this w m Hok Hm)
        as (m2' & Hm2' & Hok2 & Hc).
      assert (m2' = m2) by congruence. subst m2'.
      rewrite (okModel_no_component_no_entity _ Hok2 Hc). reflexivity.
    + unfold destroyAllIn in Hm2. rewrite Hm in Hm2. rewrite Hm in Hm2.
      congruence.
Qed.

Lemma reachable_worldFresh w : reachable w -> worldFresh w.
Proof.
  induction 1 as [|w op Hreach IH Hwf].
  - intros this m. discriminate.
  - destruct op as [this scn|this r|this c|this|this|this|this]; simpl.
    + destruct (getOwn (models w) this) eqn:E; [exact IH|].
      intros x m. simpl. rewrite getOwn_setProp.
      destruct (String.eqb_spec x this) as [->|]; [|apply IH].
      intros [= <-] l. discriminate.
    + apply worldFresh_add, IH.
    + apply worldFresh_onModel; [exact IH|].
      intros m _. apply entityIdsFresh_remove.
    + apply worldFresh_clear; [|exact IH].
      apply (reachable_sound sceneComponents isComponentType Config
               cfgType construct scene_coherent), Hreach.
    + apply worldFresh_readCache; [exact IH|]. intros m Hm. exact Hm.
    + apply worldFresh_readCache; [exact IH|]. intros m Hm. exact Hm.
    + apply worldFresh_readCache; [exact IH|].
      intros m _ l. simpl. congruence.
Qed.

(** X25. When every component calls back on [destroy()], [entityIds] is
    never stale either. *)
Theorem entityIds_fresh_under_protocol this w m :
  reachable w -> getOwn (models w) this = Some m ->
  snd (entityIds this w) = ownKeys (entities m).
Proof.
  intros Hw Hm. unfold entityIds, readCache. rewrite Hm.
  destruct (_entityIds m) eqn:E; [|reflexivity].
  apply (reachable_worldFresh _ Hw _ _ Hm), E.
Qed.

End EntityIds.

Lemma prefix_before {A : Type} (M R pre post : list A) (x : A) :
  pre ++ x :: post = M ++ R -> ~ In x M -> exists pre', pre = M ++ pre'.
Proof.
  revert pre. induction M as [|a M IH]; intros pre E Hx.
  - exists pre. reflexivity.
  - destruct pre as [|b pre]; simpl in E; injection E as -> E.
    + exfalso. apply Hx. simpl. auto.
    + destruct (IH pre E) as [pre' ->]; [intros H; apply Hx; simpl; auto|].
      exists pre'. reflexivity.
Qed.

(** ** The claims that hold of every history *)

Section Claims.

Variable sceneComponents : string -> JsObj.t Component.
Variable isComponentType : string -> bool.
Variable Config : Type.
Variable cfgType : Config -> option string.
Variable construct : string -> string -> Config -> Component.

Local Abbreviation add :=
  (_addComponent sceneComponents isComponentType Config cfgType construct).
Local Abbreviation resolve :=
  (resolve sceneComponents isComponentType Config cfgType construct).
Local Abbreviation reachable :=
  (reachable sceneComponents isComponentType Config cfgType construct).

(** C7. When the argument of [_addComponent] stands for a component
    whose id is already a key of [components], the call returns
    nothing and leaves every registry (all index maps, the counter,
    the caches) and every back-reference as they were. *)
Theorem add_present_is_noop this w m r c :
  getOwn (models w) this = Some m ->
  resolve m r = inr c ->
  getOwn (components m) (id c) <> None ->
  snd (add this r w) = None /\
  models (fst (add this r w)) = models w /\
  modelOf (fst (add this r w)) = modelOf w.
Proof.
  intros Hm Hr Hc. unfold _addComponent. rewrite Hm, Hr.
  destruct (negb (String.eqb (scene c) (modelScene m))); [simpl; auto|].
  unfold getProp. destruct (getOwn (components m) (id c));
    [simpl; auto|contradiction].
Qed.

(** C8. A call of [_addComponent] that fails - an id under which the
    scene lists no component, a configuration whose type tag is not a
    component type, or a component of another scene - returns nothing
    and leaves every registry field and back-reference unchanged. *)
Theorem failed_add_changes_nothing this w m r :
  getOwn (models w) this = Some m ->
  (exists k, r = ById k /\
     getOwn (sceneComponents (modelScene m)) k = None) \/
  (exists cfg, r = ByConfig cfg /\
     isComponentType (typeTag Config cfgType cfg) = false) \/
  (exists c, resolve m r = inr c /\ scene c <> modelScene m) ->
  snd (add this r w) = None /\
  models (fst (add this r w)) = models w /\
  modelOf (fst (add this r w)) = modelOf w.
Proof.
  intros Hm Hfail. unfold _addComponent. rewrite Hm.
  destruct Hfail as [(k & -> & Hk) | [(cfg & -> & Ht) | (c & Hr & Hs)]].
  - simpl. unfold getProp. rewrite Hk.
    destruct (inherited k); simpl; auto.
  - simpl. rewrite Ht. simpl. auto.
  - rewrite Hr. destruct (String.eqb_spec (scene c) (modelScene m));
      [contradiction|simpl; auto].
Qed.

Hypothesis scene_coherent : forall s k c,
  getOwn (sceneComponents s) k = Some c -> id c = k /\ scene c = s.

(** C9. In every registry of a reachable world the keys of [meshes]
    are keys of [objects], the keys of [objects] are keys of
    [components], and the keys of [entities] are keys of [objects]. *)
Theorem index_key_sets_nested this w m :
  reachable w -> getOwn (models w) this = Some m ->
  incl (ownKeys (meshes m)) (ownKeys (objects m)) /\
  incl (ownKeys (objects m)) (ownKeys (components m)) /\
  incl (ownKeys (entities m)) (ownKeys (objects m)).
Proof.
  intros Hw Hm.
  apply (reachable_sound _ _ _ _ _ scene_coherent) in Hw.
  pose proof (ok_models _ _ Hw _ _ Hm) as Hok.
  repeat split; intros k Hk; apply In_ownKeys in Hk; apply In_ownKeys.
  - destruct (getOwn (meshes m) k) as [c|] eqn:E; [|contradiction].
    destruct (ok_meshes _ _ Hok _ _ E) as [-> _]. discriminate.
  - destruct (getOwn (objects m) k) as [c|] eqn:E; [|contradiction].
    destruct (ok_objects _ _ Hok _ _ E) as [-> _]. discriminate.
  - destruct (getOwn (entities m) k) as [c|] eqn:E; [|contradiction].
    destruct (ok_entities _ _ Hok _ _ E) as [-> _]. discriminate.
Qed.

(** C10. [clear()] on a registry of a reachable world calls
    [destroy()] first on the components in [meshes], which are exactly
    the mesh-flagged components it holds, and only then on the
    components that remain (every held component except the meshes
    that removed themselves in the first pass).  Hence whenever a
    component that is not mesh-flagged is notified, every mesh has
    been notified before. *)
Theorem clear_destroys_meshes_first this w m :
  reachable w -> getOwn (models w) this = Some m ->
  let notified :=
    map Destroyed (ownValues (meshes m)) ++
    map Destroyed
      (filter (fun c => negb (isObject c && isMesh c && selfRemoves c))
         (ownValues (components m))) in
  events (clear this w) = events w ++ notified /\
  (forall c, In c (ownValues (components m)) ->
     (In c (ownValues (meshes m)) <-> isObject c && isMesh c = true)) /\
  (forall pre c post,
     notified = pre ++ Destroyed c :: post ->
     isObject c && isMesh c = false ->
     forall d, In d (ownValues (components m)) ->
               isObject d && isMesh d = true -> In (Destroyed d) pre).
Proof.
  intros Hw Hm notified.
  apply (reachable_sound _ _ _ _ _ scene_coherent) in Hw.
  pose proof (ok_models _ _ Hw _ _ Hm) as Hok.
  assert (Hmesh : forall c, In c (ownValues (components m)) ->
            (In c (ownValues (meshes m)) <-> isObject c && isMesh c = true))
    by (intros c; apply meshes_are_the_flagged with sceneComponents, Hok).
  split; [apply clear_events with sceneComponents; assumption|].
  split; [exact Hmesh|].
  intros pre c post E Hc d Hd Hflag.
  symmetry in E. apply prefix_before in E as [pre' ->].
  - apply in_or_app. left. apply in_map. apply Hmesh; assumption.
  - intros Hin. apply in_map_iff in Hin as (c' & [= ->] & Hin).
    apply In_ownValues in Hin as [k Hin].
    apply (In_getOwn _ _ _ (ok_meshes_nodup _ _ Hok)) in Hin.
    destruct (okModel_mesh_component _ _ _ _ Hok Hin) as [_ Hf].
    congruence.
Qed.

End Claims.

(** ** The code run on the small scene *)

Module DemoFacts.

Import Demo.

Lemma demo_scene_coherent s k c :
  getOwn (sceneComponents s) k = Some c -> id c = k /\ scene c = s.
Proof.
  unfold sceneComponents.
  destruct (String.eqb_spec s "scene") as [->|_];
    [|destruct (String.eqb_spec s "other") as [->|_]; [|discriminate]];
    cbn;
    repeat match goal with
           | |- context [String.eqb k ?x] =>
               destruct (String.eqb_spec k x) as [->|_];
               [cbn; intros [= <-]; split; reflexivity|]
           end;
    discriminate.
Qed.

Lemma history_wf :
  wfHistory sceneComponents isComponentType Config cfgType construct
    emptyWorld history.
Proof. cbn. repeat split; reflexivity. Qed.

Lemma world_reachable :
  reachable sceneComponents isComponentType Config cfgType construct world.
Proof.
  apply reachable_run; [apply reachable_empty|apply history_wf].
Qed.

End DemoFacts.

(** ** The claims the code does not meet, and the inputs showing it *)

Section Defects.

Import Demo.

(** C1. [_addComponent] files [wall1], whose guid is "G-1", in
    [guidObjects] under its id "wall1": [guidObjects["G-1"]] is
    undefined.  [_removeComponent] then deletes the key "G-1", so the
    entry made for [wall1] stays, and [objectGUIDs] lists the id. *)
Theorem guid_index_keyed_by_id :
  let before := modelAt "A" withWall1 in
  let removed := perform (Remove "A" wall1) withWall1 in
  let after := modelAt "A" removed in
  getOwn (components before) "wall1" = Some wall1 /\
  getOwn (guidObjects before) "G-1" = None /\
  getOwn (guidObjects before) "wall1" = Some wall1 /\
  components after = empty /\
  getOwn (guidObjects after) "wall1" = Some wall1 /\
  snd (objectGUIDs "A" removed) = ["wall1"].
Proof. vm_compute. repeat split; reflexivity. Qed.

(** C2. After [wall1] is added and removed again [components] has no
    key while [numComponents] is still 1. *)
Theorem count_survives_remove :
  let after := modelAt "A" (perform (Remove "A" wall1) withWall1) in
  ownKeys (components after) = [] /\ numComponents after = 1.
Proof. vm_compute. split; reflexivity. Qed.

(** C3. [wall1] is owned by [A] and added to [B].  It becomes [B]'s
    ([model] is [B], [B.components] holds it), and it leaves [A]'s
    [components], [objects], [meshes] and [entities]; but [A.types]
    and [A.guidObjects] still hold it, [A.entityTypes] keeps the key
    of its entity type, and [B.guidObjects] has no entry under its
    guid. *)
Theorem transfer_leaves_traces :
  let a := modelAt "A" transferred in
  let b := modelAt "B" transferred in
  getModelOf (modelOf transferred) wall1 = Some "B" /\
  getOwn (components b) "wall1" = Some wall1 /\
  (components a = empty /\ objects a = empty /\
   meshes a = empty /\ entities a = empty) /\
  types a = [("Object", [("wall1", wall1)])] /\
  guidObjects a = [("wall1", wall1)] /\
  entityTypes a = [("wall", [])] /\
  getOwn (guidObjects b) "G-1" = None.
Proof. vm_compute. repeat split; reflexivity. Qed.

(** C4. [clear()] resets five maps and the counter but neither
    [entityTypes] nor [guidObjects].  When the destroyed component
    removed itself the key of its entity type remains, and so does the
    guid entry filed under its id; when it did not, both indices still
    hold the component. *)
Theorem clear_keeps_two_indices :
  let a := modelAt "A" (clear "A" withWall1) in
  let a' := modelAt "A" (clear "A" withWall2) in
  (components a = empty /\ numComponents a = 0 /\
   entityTypes a = [("wall", [])] /\
   guidObjects a = [("wall1", wall1)]) /\
  (components a' = empty /\ numComponents a' = 0 /\
   entityTypes a' = [("wall", [("wall2", wall2)])] /\
   guidObjects a' = [("wall2", wall2)]).
Proof. vm_compute. repeat split; reflexivity. Qed.

(** C5. After [wall1] is removed from the registry that held it,
    [types["Object"]] still maps "wall1" to it. *)
Theorem remove_keeps_types_entry :
  let before := modelAt "A" withWall1 in
  let after := modelAt "A" (perform (Remove "A" wall1) withWall1) in
  getOwn (components before) "wall1" = Some wall1 /\
  type wall1 = "Object" /\
  getOwn (components after) "wall1" = None /\
  getOwn (types after) "Object" = Some [("wall1", wall1)].
Proof. vm_compute. repeat split; reflexivity. Qed.

(** C6. [entityIds] was read while the registry held [wall2], whose
    [destroy()] does not call back.  [clear()] empties [entities] and
    keeps the cached list: the next read returns "wall2" although
    [entities] has no key. *)
Theorem entityIds_stale_after_clear :
  let w := clear "A" withWall2 in
  ownKeys (entities (modelAt "A" w)) = [] /\
  snd (entityIds "A" w) = ["wall2"].
Proof. vm_compute. split; reflexivity. Qed.

End Defects.

(** ** The general claims at work on the small scene *)

Section Witnesses.

Import Demo DemoFacts.

Lemma add_present_is_noop_witness :
  snd (add "A" (ById "wall1") world) = None /\
  models (fst (add "A" (ById "wall1") world)) = models world /\
  modelOf (fst (add "A" (ById "wall1") world)) = modelOf world.
Proof.
  refine (add_present_is_noop sceneComponents isComponentType Config
            cfgType construct "A" world (modelAt "A" world)
            (ById "wall1") wall1 _ _ _).
  - reflexivity.
  - reflexivity.
  - vm_compute. discriminate.
Defined.

Lemma failed_add_changes_nothing_witness :
  (snd (add "A" (ById "nobody") world) = None /\
   models (fst (add "A" (ById "nobody") world)) = models world /\
   modelOf (fst (add "A" (ById "nobody") world)) = modelOf world) /\
  (snd (add "A" (ByConfig bogus) world) = None /\
   models (fst (add "A" (ByConfig bogus) world)) = models world /\
   modelOf (fst (add "A" (ByConfig bogus) world)) = modelOf world) /\
  (snd (add "A" (Instance alien) world) = None /\
   models (fst (add "A" (Instance alien) world)) = models world /\
   modelOf (fst (add "A" (Instance alien) world)) = modelOf world).
Proof.
  split; [|split].
  - refine (failed_add_changes_nothing sceneComponents isComponentType
              Config cfgType construct "A" world (modelAt "A" world)
              (ById "nobody") _ _); [reflexivity|].
    left. exists "nobody". split; reflexivity.
  - refine (failed_add_changes_nothing sceneComponents isComponentType
              Config cfgType construct "A" world (modelAt "A" world)
              (ByConfig bogus) _ _); [reflexivity|].
    right. left. exists bogus. split; reflexivity.
  - refine (failed_add_changes_nothing sceneComponents isComponentType
              Config cfgType construct "A" world (modelAt "A" world)
              (Instance alien) _ _); [reflexivity|].
    right. right. exists alien. split; [reflexivity|].
    vm_compute. discriminate.
Defined.

Lemma index_key_sets_nested_witness :
  let m := modelAt "A" world in
  incl (ownKeys (meshes m)) (ownKeys (objects m)) /\
  incl (ownKeys (objects m)) (ownKeys (components m)) /\
  incl (ownKeys (entities m)) (ownKeys (objects m)).
Proof.
  refine (index_key_sets_nested sceneComponents isComponentType Config
            cfgType construct demo_scene_coherent "A" world
            (modelAt "A" world) _ _).
  - apply world_reachable.
  - reflexivity.
Defined.

Lemma clear_destroys_meshes_first_witness :
  events (clear "A" world) =
    events world ++ [Destroyed m1; Destroyed wall1; Destroyed wall2].
Proof.
  refine (proj1 (clear_destroys_meshes_first sceneComponents
                   isComponentType Config cfgType construct
                   demo_scene_coherent "A" world (modelAt "A" world) _ _)).
  - apply world_reachable.
  - reflexivity.
Defined.

End Witnesses.

(** * Further properties of the code *)

(** ** More on property maps: deleting, overwriting, order *)

Section MoreFacts.
Context {V : Type}.
Implicit Types (o : JsObj.t V) (k : string) (v : V).

Lemma deleteProp_absent o k : getOwn o k = None -> deleteProp o k = o.
Proof.
  unfold deleteProp. induction o as [|[k0 v0] o IH]; simpl; [reflexivity|].
  destruct (String.eqb_spec k k0) as [->|]; [discriminate|].
  intros H. simpl. f_equal. exact (IH H).
Qed.

Lemma deleteProp_twice o k : deleteProp (deleteProp o k) k = deleteProp o k.
Proof. apply deleteProp_absent, getOwn_deleteProp_same. Qed.

Lemma setProp_present o k v : getOwn o k = Some v -> setProp o k v = o.
Proof.
  intros H. unfold setProp. rewrite H.
  induction o as [|[k0 v0] o IH]; simpl in *; [reflexivity|].
  destruct (String.eqb_spec k k0) as [->|]; [congruence|].
  f_equal. exact (IH H).
Qed.

Lemma setProp_twice o k v : setProp (setProp o k v) k v = setProp o k v.
Proof. apply setProp_present, getOwn_setProp_same. Qed.

Lemma deleteProp_insertIndex n o k v :
  deleteProp (insertIndex n k v o) k = deleteProp o k.
Proof.
  unfold deleteProp. induction o as [|[k0 v0] o IH]; simpl.
  - rewrite String.eqb_refl. reflexivity.
  - destruct (arrayIndex k0) as [n0|]; [destruct (n0 <? n)%N|]; simpl;
      rewrite ?String.eqb_refl; simpl; try reflexivity.
    rewrite IH. reflexivity.
Qed.

Lemma deleteProp_setProp o k v :
  getOwn o k = None -> deleteProp (setProp o k v) k = o.
Proof.
  intros H. unfold setProp, addProp. rewrite H.
  destruct (arrayIndex k).
  - rewrite deleteProp_insertIndex. apply deleteProp_absent, H.
  - unfold deleteProp. rewrite filter_app. simpl.
    rewrite String.eqb_refl. simpl. rewrite app_nil_r.
    apply (deleteProp_absent _ _ H).
Qed.

Lemma length_insertIndex n o k v :
  length (insertIndex n k v o) = S (length o).
Proof.
  induction o as [|[k0 v0] o IH]; simpl; [reflexivity|].
  destruct (arrayIndex k0) as [n0|]; [destruct (n0 <? n)%N|]; simpl;
    try reflexivity.
  rewrite IH. reflexivity.
Qed.

Lemma length_setProp_new o k v :
  getOwn o k = None ->
  length (ownKeys (setProp o k v)) = S (length (ownKeys o)).
Proof.
  intros H. unfold ownKeys, setProp, addProp. rewrite H, !length_map.
  destruct (arrayIndex k); [apply length_insertIndex|].
  rewrite length_app. simpl. lia.
Qed.

Lemma length_deleteProp o k :
  length (ownKeys (deleteProp o k)) <= length (ownKeys o).
Proof.
  unfold ownKeys, deleteProp. rewrite !length_map. apply filter_length_le.
Qed.


End MoreFacts.

(** ** [_removeComponent] on its own *)

Lemma deleteFromSubMap_twice (o : JsObj.t (JsObj.t Component)) t k :
  deleteFromSubMap (deleteFromSubMap o t k) t k = deleteFromSubMap o t k.
Proof.
  unfold deleteFromSubMap, getProp.
  destruct (getOwn o t) as [sub|] eqn:E.
  - rewrite getOwn_setProp_same, deleteProp_twice. apply setProp_twice.
  - destruct (inherited t); rewrite E; reflexivity.
Qed.

Lemma deleteFromSubMap_absent (o : JsObj.t (JsObj.t Component)) t k :
  (forall sub, getOwn o t = Some sub -> getOwn sub k = None) ->
  deleteFromSubMap o t k = o.
Proof.
  intros H. unfold deleteFromSubMap, getProp.
  destruct (getOwn o t) as [sub|] eqn:E.
  - rewrite (deleteProp_absent _ _ (H _ eq_refl)).
    apply setProp_present, E.
  - destruct (inherited t); reflexivity.
Qed.

(** X1. Removing a component a second time changes nothing. *)
Theorem remove_twice m c :
  _removeComponent (_removeComponent m c) c = _removeComponent m c.
Proof.
  unfold _removeComponent. simpl.
  destruct (truthy (guid c)) as [g|], (truthy (entityType c)) as [et|];
    f_equal;
    try apply deleteProp_twice; try apply deleteFromSubMap_twice;
    reflexivity.
Qed.

(** X2. Removing a component that no index lists leaves every index map,
    [types] and the counter as they are; only the caches of the lists
    its entity type and guid could appear in are dropped. *)
Theorem remove_absent m c :
  getOwn (components m) (id c) = None ->
  getOwn (objects m) (id c) = None ->
  getOwn (meshes m) (id c) = None ->
  getOwn (entities m) (id c) = None ->
  (forall et sub, truthy (entityType c) = Some et ->
     getOwn (entityTypes m) et = Some sub -> getOwn sub (id c) = None) ->
  (forall g, truthy (guid c) = Some g -> getOwn (guidObjects m) g = None) ->
  let m' := _removeComponent m c in
  components m' = components m /\ objects m' = objects m /\
  meshes m' = meshes m /\ entities m' = entities m /\
  entityTypes m' = entityTypes m /\ guidObjects m' = guidObjects m /\
  types m' = types m /\ numComponents m' = numComponents m /\
  _entityIds m' =
    match truthy (entityType c) with
    | Some _ => None | None => _entityIds m end /\
  _entityTypeIds m' =
    match truthy (entityType c) with
    | Some _ => None | None => _entityTypeIds m end /\
  _objectGUIDs m' =
    match truthy (guid c) with
    | Some _ => None | None => _objectGUIDs m end.
Proof.
  intros Hc Ho Hm He Het Hg. simpl.
  assert (Het' : match truthy (entityType c) with
                 | Some et => deleteFromSubMap (entityTypes m) et (id c)
                 | None => entityTypes m
                 end = entityTypes m).
  { destruct (truthy (entityType c)) as [et|]; [|reflexivity].
    apply deleteFromSubMap_absent. intros sub. apply Het. reflexivity. }
  assert (Hg' : match truthy (guid c) with
                | Some g => deleteProp (guidObjects m) g
                | None => guidObjects m
                end = guidObjects m).
  { destruct (truthy (guid c)) as [g|]; [|reflexivity].
    apply deleteProp_absent, Hg. reflexivity. }
  rewrite Het', Hg', !deleteProp_absent by assumption.
  repeat split. destruct (truthy (entityType c)); reflexivity.
Qed.

(** X3. Attaching a component and removing it again restores [components],
    [objects], [meshes] and [entities]. *)
Theorem attach_remove_restores m c :
  getOwn (components m) (id c) = None ->
  getOwn (objects m) (id c) = None ->
  getOwn (meshes m) (id c) = None ->
  getOwn (entities m) (id c) = None ->
  let m' := _removeComponent (attach m c) c in
  components m' = components m /\ objects m' = objects m /\
  meshes m' = meshes m /\ entities m' = entities m.
Proof.
  intros Hc Ho Hm He. simpl. repeat split.
  - apply deleteProp_setProp, Hc.
  - destruct (isObject c);
      [apply deleteProp_setProp|apply deleteProp_absent]; exact Ho.
  - destruct (isObject c && isMesh c);
      [apply deleteProp_setProp|apply deleteProp_absent]; exact Hm.
  - destruct (isObject c); simpl;
      destruct (truthy (entityType c));
      try reflexivity;
      [apply deleteProp_setProp|apply deleteProp_absent]; exact He.
Qed.

(** ** Properties of single registries kept along every history *)

Lemma allModels_onModel (P : Model -> Prop) this f w :
  allModels P w ->
  (forall m, getOwn (models w) this = Some m -> P m -> P (f m)) ->
  allModels P (onModel this f w).
Proof.
  intros Hw Hf x m. rewrite getOwn_onModel.
  destruct (String.eqb_spec x this) as [->|]; [|apply Hw].
  destruct (getOwn (models w) this) as [m0|] eqn:E; [|discriminate].
  intros [= <-]. apply Hf; [reflexivity|]. apply (Hw _ _ E).
Qed.

Section ModelwiseInvariant.

Variable sceneComponents : string -> JsObj.t Component.
Variable isComponentType : string -> bool.
Variable Config : Type.
Variable cfgType : Config -> option string.
Variable construct : string -> string -> Config -> Component.

Local Abbreviation add :=
  (_addComponent sceneComponents isComponentType Config cfgType construct).
Local Abbreviation step :=
  (step sceneComponents isComponentType Config cfgType construct).
Local Abbreviation run :=
  (run sceneComponents isComponentType Config cfgType construct).

Variable P : Model -> Prop.

Hypothesis P_init : forall this scn, P (init this scn).
Hypothesis P_remove : forall m c, P m -> P (_removeComponent m c).
Hypothesis P_attach : forall m c,
  P m -> getOwn (components m) (id c) = None -> P (attach m c).
Hypothesis P_reset : forall m, P m -> P (resetIndices m).
Hypothesis P_guids : forall m l, P m -> P (storeObjectGUIDs m l).
Hypothesis P_typeIds : forall m l, P m -> P (storeEntityTypeIds m l).
Hypothesis P_ids : forall m l, P m -> P (storeEntityIds m l).

Lemma allModels_destroyComponent c w :
  allModels P w -> allModels P (destroyComponent c w).
Proof.
  intros Hw. unfold destroyComponent.
  destruct (selfRemoves c); [|exact Hw]. simpl.
  destruct (getModelOf (modelOf w) c); [|exact Hw].
  apply allModels_onModel; [exact Hw|]. intros m _. apply P_remove.
Qed.

Lemma allModels_destroyEach field this keys w :
  allModels P w -> allModels P (destroyEach field this keys w).
Proof.
  revert w. induction keys as [|k keys IH]; simpl; intros w Hw; [exact Hw|].
  destruct (getOwn (models w) this) as [m|]; [|exact Hw].
  destruct (getOwn (field m) k); apply IH;
    [apply allModels_destroyComponent|]; exact Hw.
Qed.

Lemma allModels_destroyAllIn field this w :
  allModels P w -> allModels P (destroyAllIn field this w).
Proof.
  intros Hw. unfold destroyAllIn.
  destruct (getOwn (models w) this); [apply allModels_destroyEach|]; exact Hw.
Qed.

Lemma allModels_readCache cache fresh store this w :
  allModels P w ->
  (forall m l, P m -> P (store m l)) ->
  allModels P (fst (readCache cache fresh store this w)).
Proof.
  intros Hw Hs. unfold readCache.
  destruct (getOwn (models w) this) as [m|] eqn:E; [|exact Hw].
  destruct (cache m); [exact Hw|]. simpl.
  intros x mx. simpl. rewrite getOwn_setProp.
  destruct (String.eqb_spec x this) as [->|]; [|apply Hw].
  intros [= <-]. apply Hs, (Hw _ _ E).
Qed.

Lemma allModels_add this r w :
  allModels P w -> allModels P (fst (add this r w)).
Proof.
  intros Hw. unfold _addComponent.
  destruct (getOwn (models w) this) as [m|] eqn:Hm; [|exact Hw].
  destruct (resolve _ _ _ _ _ m r) as [e|c]; [exact Hw|].
  destruct (negb (String.eqb (scene c) (modelScene m))); [exact Hw|].
  unfold getProp.
  destruct (getOwn (components m) (id c)) eqn:Hnew; [exact Hw|].
  destruct (inherited (id c)); [exact Hw|].
  cbn [fst]. unfold _addedToModel, allModels. cbn [models].
  fold (allModels P
          (onModel this (fun m1 => attach m1 c)
             match getModelOf (modelOf w) c with
             | Some owner =>
                 if negb (String.eqb owner this)
                 then onModel owner (fun o => _removeComponent o c) w
                 else w
             | None => w
             end)).
  destruct (getModelOf (modelOf w) c) as [owner|].
  - destruct (String.eqb_spec owner this) as [->|Hne]; simpl.
    + apply allModels_onModel; [exact Hw|].
      intros m1 Hm1 Hp. apply P_attach; congruence.
    + apply allModels_onModel.
      * apply allModels_onModel; [exact Hw|]. intros m1 _. apply P_remove.
      * intros m1. rewrite getOwn_onModel.
        destruct (String.eqb_spec this owner); [congruence|].
        intros Hm1 Hp. apply P_attach; congruence.
  - apply allModels_onModel; [exact Hw|].
    intros m1 Hm1 Hp. apply P_attach; congruence.
Qed.

Lemma allModels_step op w : allModels P w -> allModels P (step op w).
Proof.
  intros Hw. destruct op as [this scn|this r|this c|this|this|this|this];
    simpl.
  - destruct (getOwn (models w) this) eqn:E; [exact Hw|].
    intros x m. simpl. rewrite getOwn_setProp.
    destruct (String.eqb_spec x this) as [->|]; [|apply Hw].
    intros [= <-]. apply P_init.
  - apply allModels_add, Hw.
  - apply allModels_onModel; [exact Hw|]. intros m _. apply P_remove.
  - unfold clear. apply allModels_onModel.
    + apply allModels_destroyAllIn, allModels_destroyAllIn, Hw.
    + intros m _. apply P_reset.
  - apply allModels_readCache; [exact Hw|exact P_guids].
  - apply allModels_readCache; [exact Hw|exact P_typeIds].
  - apply allModels_readCache; [exact Hw|exact P_ids].
Qed.

Lemma allModels_run ops w : allModels P w -> allModels P (run ops w).
Proof.
  revert w. induction ops as [|op ops IH]; simpl; intros w Hw; [exact Hw|].
  apply IH, allModels_step, Hw.
Qed.

Lemma allModels_history ops : allModels P (run ops emptyWorld).
Proof. apply allModels_run. intros this m. discriminate. Qed.

End ModelwiseInvariant.




Section Histories.

Variable sceneComponents : string -> JsObj.t Component.
Variable isComponentType : string -> bool.
Variable Config : Type.
Variable cfgType : Config -> option string.
Variable construct : string -> string -> Config -> Component.

Local Abbreviation run :=
  (run sceneComponents isComponentType Config cfgType construct).

(** X4. After any history whatever, [numComponents] is at least the number
    of keys of [components]. *)
Theorem count_bounds_keys ops this m :
  getOwn (models (run ops emptyWorld)) this = Some m ->
  length (ownKeys (components m)) <= numComponents m.
Proof.
  revert this m.
  apply (allModels_history sceneComponents isComponentType Config cfgType
           construct countBoundsKeys); unfold countBoundsKeys; simpl;
    try (intros; assumption).
  - intros; lia.
  - intros m c H. pose proof (length_deleteProp (components m) (id c)). lia.
  - intros m c H Hnew. rewrite (length_setProp_new _ _ _ Hnew). lia.
  - intros; lia.
Qed.



End Histories.

(** ** What a call of [_addComponent] does *)

Section Adding.

Variable sceneComponents : string -> JsObj.t Component.
Variable isComponentType : string -> bool.
Variable Config : Type.
Variable cfgType : Config -> option string.
Variable construct : string -> string -> Config -> Component.

Local Abbreviation add :=
  (_addComponent sceneComponents isComponentType Config cfgType construct).
Local Abbreviation resolve :=
  (resolve sceneComponents isComponentType Config cfgType construct).
Local Abbreviation accepts :=
  (accepts sceneComponents isComponentType Config cfgType construct).

Lemma add_accepted this w m r c :
  getOwn (models w) this = Some m -> accepts m r c ->
  snd (add this r w) = Some c /\
  modelOf (fst (add this r w)) = (c, this) :: modelOf w /\
  events (fst (add this r w)) = events w /\
  getOwn (models (fst (add this r w))) this = Some (attach m c).
Proof.
  intros Hm (Hr & Hs & Hnew & Hi). unfold _addComponent.
  rewrite Hm, Hr, Hs, String.eqb_refl. simpl.
  unfold getProp. rewrite Hnew, Hi. simpl.
  rewrite modelOf_onModel, events_onModel, getOwn_onModel, String.eqb_refl.
  destruct (getModelOf (modelOf w) c) as [owner|].
  - destruct (String.eqb_spec owner this) as [->|Hne]; simpl.
    + rewrite Hm. auto.
    + rewrite modelOf_onModel, events_onModel, getOwn_onModel.
      destruct (String.eqb_spec this owner); [congruence|].
      rewrite Hm. auto.
  - rewrite Hm. auto.
Qed.




(** X10. An accepted component that is not an object enters [components] and
    [types] only: the five object indices and the three caches of the
    registry stay as they are. *)
Theorem add_plain_component this w m r c :
  getOwn (models w) this = Some m -> accepts m r c ->
  isObject c = false ->
  exists m',
    getOwn (models (fst (add this r w))) this = Some m' /\
    objects m' = objects m /\ meshes m' = meshes m /\
    entities m' = entities m /\ entityTypes m' = entityTypes m /\
    guidObjects m' = guidObjects m /\
    _objectGUIDs m' = _objectGUIDs m /\ _entityIds m' = _entityIds m /\
    _entityTypeIds m' = _entityTypeIds m.
Proof.
  intros Hm Hacc Ho.
  destruct (add_accepted _ _ _ _ _ Hm Hacc) as (_ & _ & _ & Hm').
  exists (attach m c). split; [exact Hm'|]. simpl. rewrite Ho. simpl.
  repeat split.
Qed.

(** X11. A call of [_addComponent] on one registry leaves every other
    registry alone, except the one the component names as its [model]. *)
Theorem add_frame this w m r x :
  getOwn (models w) this = Some m ->
  x <> this ->
  (forall c, resolve m r = inr c -> getModelOf (modelOf w) c <> Some x) ->
  getOwn (models (fst (add this r w))) x = getOwn (models w) x.
Proof.
  intros Hm Hx Hown. unfold _addComponent. rewrite Hm.
  destruct (resolve m r) as [e|c]; [reflexivity|].
  specialize (Hown c eq_refl).
  destruct (negb (String.eqb (scene c) (modelScene m))); [reflexivity|].
  destruct (getProp (components m) (id c)); try reflexivity.
  cbn [fst]. unfold _addedToModel. cbn [models].
  rewrite getOwn_onModel.
  destruct (String.eqb_spec x this); [contradiction|].
  destruct (getModelOf (modelOf w) c) as [owner|]; [|reflexivity].
  destruct (negb (String.eqb owner this)); [|reflexivity].
  rewrite getOwn_onModel.
  destruct (String.eqb_spec x owner); [congruence|reflexivity].
Qed.


End Adding.

(** ** More on [clear] *)

Lemma destroyAllIn_nothing field this w m :
  getOwn (models w) this = Some m -> field m = empty ->
  destroyAllIn field this w = w.
Proof. intros Hm He. unfold destroyAllIn. rewrite Hm, He. reflexivity. Qed.

Lemma clear_absent this w : getOwn (models w) this = None -> clear this w = w.
Proof.
  intros H.
  assert (Hd : forall field, destroyAllIn field this w = w)
    by (intros field; unfold destroyAllIn; rewrite H; reflexivity).
  unfold clear. rewrite !Hd. unfold onModel. rewrite H. reflexivity.
Qed.

(** X13. [clear()] (or its alias [destroyAll()]) right after [clear()]
    changes nothing and calls no [destroy()]. *)
Theorem clear_twice this w :
  clear this (clear this w) = clear this w /\
  destroyAll this (clear this w) = clear this w.
Proof.
  assert (H : clear this (clear this w) = clear this w).
  { destruct (getOwn (models w) this) as [m|] eqn:Hm.
    - destruct (clear_resets this w) as (m2 & _ & Hc); [congruence|].
      set (w' := clear this w) in *.
      unfold clear at 1.
      rewrite (destroyAllIn_nothing meshes this w' _ Hc eq_refl).
      rewrite (destroyAllIn_nothing components this w' _ Hc eq_refl).
      unfold onModel. rewrite Hc. unfold setModel.
      change (resetIndices (resetIndices m2)) with (resetIndices m2).
      rewrite (setProp_present _ _ _ Hc). destruct w'. reflexivity.
    - rewrite !(clear_absent _ _ Hm). reflexivity. }
  split; exact H.
Qed.


Section ClearFrame.

Variable sceneComponents : string -> JsObj.t Component.

Local Abbreviation okWorld := (okWorld sceneComponents).

Lemma destroyComponent_frame this w m k c :
  okWorld w -> getOwn (models w) this = Some m ->
  getOwn (components m) k = Some c ->
  modelOf (destroyComponent c w) = modelOf w /\
  forall x, x <> this ->
    getOwn (models (destroyComponent c w)) x = getOwn (models w) x.
Proof.
  intros Hw Hm Hc. unfold destroyComponent.
  destruct (selfRemoves c); [|simpl; auto].
  simpl. rewrite (ok_owner _ _ Hw _ _ _ _ Hm Hc).
  rewrite modelOf_onModel. split; [reflexivity|].
  intros x Hx. rewrite getOwn_onModel.
  destruct (String.eqb_spec x this); [contradiction|reflexivity].
Qed.

Lemma destroyEach_frame field this :
  field = meshes \/ field = components ->
  forall kvs w m,
    okWorld w -> getOwn (models w) this = Some m ->
    NoDup (map fst kvs) ->
    (forall k c, In (k, c) kvs -> getOwn (field m) k = Some c) ->
    modelOf (destroyEach field this (map fst kvs) w) = modelOf w /\
    forall x, x <> this ->
      getOwn (models (destroyEach field this (map fst kvs) w)) x =
      getOwn (models w) x.
Proof.
  intros Hfield. induction kvs as [|[k c] kvs IH]; intros w m Hw Hm Hnd Hin.
  - simpl. auto.
  - simpl. rewrite Hm, (Hin k c) by (simpl; auto).
    inversion Hnd as [|? ? Hk Hnd']; subst.
    pose proof (ok_models _ _ Hw _ _ Hm) as Hok.
    assert (Hc : getOwn (components m) k = Some c).
    { destruct Hfield as [-> | ->]; [|apply Hin; simpl; auto].
      apply (okModel_mesh_component sceneComponents);
        [assumption|apply Hin; simpl; auto]. }
    destruct (destroyComponent_held _ _ _ _ _ _ Hw Hm Hc) as [_ Hm1].
    destruct (destroyComponent_frame _ _ _ _ _ Hw Hm Hc) as [Hmo Hfr].
    destruct (ok_components _ _ Hok _ _ Hc) as [Hid _].
    destruct (IH (destroyComponent c w) _
                (okWorld_destroyComponent _ _ _ Hw) Hm1 Hnd') as [Hmo' Hfr'].
    + intros k' c' H'.
      assert (Hne : k' <> id c).
      { rewrite Hid. intros ->. apply Hk.
        change k with (fst (k, c')). apply in_map, H'. }
      destruct (selfRemoves c); [|apply Hin; simpl; auto].
      destruct Hfield as [-> | ->]; simpl;
        rewrite getOwn_deleteProp_other by assumption;
        apply Hin; simpl; auto.
    + split; [congruence|]. intros x Hx. rewrite Hfr', Hfr; auto.
Qed.

Lemma destroyAllIn_frame field this w m :
  field = meshes \/ field = components ->
  okWorld w -> getOwn (models w) this = Some m ->
  modelOf (destroyAllIn field this w) = modelOf w /\
  forall x, x <> this ->
    getOwn (models (destroyAllIn field this w)) x = getOwn (models w) x.
Proof.
  intros Hfield Hw Hm. unfold destroyAllIn. rewrite Hm.
  pose proof (ok_models _ _ Hw _ _ Hm) as Hok.
  assert (Hnd : NoDup (ownKeys (field m)))
    by (destruct Hfield as [-> | ->];
        [apply (ok_meshes_nodup _ _ Hok)|apply (ok_components_nodup _ _ Hok)]).
  apply (destroyEach_frame field this Hfield (field m) w m);
    try assumption.
  intros k c. apply In_getOwn, Hnd.
Qed.

End ClearFrame.

Section ReachableWorlds.

Variable sceneComponents : string -> JsObj.t Component.
Variable isComponentType : string -> bool.
Variable Config : Type.
Variable cfgType : Config -> option string.
Variable construct : string -> string -> Config -> Component.

Local Abbreviation reachable :=
  (reachable sceneComponents isComponentType Config cfgType construct).

Hypothesis scene_coherent : forall s k c,
  getOwn (sceneComponents s) k = Some c -> id c = k /\ scene c = s.

(** X15. In a reachable world [clear()] on one registry changes no other
    registry and no back-reference. *)
Theorem clear_frame this w :
  reachable w ->
  modelOf (clear this w) = modelOf w /\
  forall x, x <> this ->
    getOwn (models (clear this w)) x = getOwn (models w) x.
Proof.
  intros Hw.
  apply (reachable_sound _ _ _ _ _ scene_coherent) in Hw.
  destruct (getOwn (models w) this) as [m|] eqn:Hm;
    [|rewrite (clear_absent _ _ Hm); auto].
  unfold clear. rewrite modelOf_onModel.
  destruct (destroyAllIn_frame _ meshes this w m (or_introl eq_refl) Hw Hm)
    as [Hmo1 Hfr1].
  destruct (destroyAllIn_held _ meshes this w m (or_introl eq_refl) Hw Hm)
    as [_ Hm1].
  destruct (destroyAllIn_frame _ components this _ _ (or_intror eq_refl)
              (okWorld_destroyAllIn _ _ _ _ Hw) Hm1) as [Hmo2 Hfr2].
  split; [congruence|].
  intros x Hx. rewrite getOwn_onModel.
  destruct (String.eqb_spec x this); [contradiction|].
  rewrite Hfr2, Hfr1; auto.
Qed.

(** X16. In a reachable world [clear()] calls [destroy()] on every component
    the registry holds, and on nothing else. *)
Theorem clear_notifies_the_held this w m :
  reachable w -> getOwn (models w) this = Some m ->
  exists notified,
    events (clear this w) = events w ++ notified /\
    (forall c, In c (ownValues (components m)) ->
               In (Destroyed c) notified) /\
    (forall e, In e notified ->
               exists c, e = Destroyed c /\ In c (ownValues (components m))).
Proof.
  intros Hw Hm.
  apply (reachable_sound _ _ _ _ _ scene_coherent) in Hw.
  pose proof (ok_models _ _ Hw _ _ Hm) as Hok.
  eexists. split; [apply (clear_events sceneComponents); eassumption|].
  split.
  - intros c Hc. apply in_or_app.
    destruct (isObject c && isMesh c) eqn:Hf.
    + left. apply in_map.
      apply (meshes_are_the_flagged sceneComponents); assumption.
    + right. apply in_map, filter_In. split; [assumption|].
      rewrite Hf. reflexivity.
  - intros e He. apply in_app_or in He as [He|He];
      apply in_map_iff in He as (c & <- & Hc); exists c;
      (split; [reflexivity|]).
    + apply In_ownValues in Hc as [k Hc].
      apply (In_getOwn _ _ _ (ok_meshes_nodup _ _ Hok)) in Hc.
      apply getOwn_In with (k := k).
      apply (okModel_mesh_component sceneComponents); assumption.
    + apply filter_In in Hc. tauto.
Qed.

(** X17. In a reachable world a component held by a registry names that
    registry as its [model]; so no two registries hold one component. *)
Theorem single_owner a b w ma mb k k' c :
  reachable w ->
  getOwn (models w) a = Some ma -> getOwn (components ma) k = Some c ->
  getOwn (models w) b = Some mb -> getOwn (components mb) k' = Some c ->
  getModelOf (modelOf w) c = Some a /\ a = b.
Proof.
  intros Hw Ha Hka Hb Hkb.
  apply (reachable_sound _ _ _ _ _ scene_coherent) in Hw.
  pose proof (ok_owner _ _ Hw _ _ _ _ Ha Hka) as Hoa.
  pose proof (ok_owner _ _ Hw _ _ _ _ Hb Hkb) as Hob.
  split; congruence.
Qed.

End ReachableWorlds.

(** ** The getters *)

Lemma readCache_twice cache fresh store this w :
  (forall m l, cache (store m l) = Some l) ->
  readCache cache fresh store this (fst (readCache cache fresh store this w))
  = readCache cache fresh store this w.
Proof.
  intros Hs. unfold readCache at 2 3.
  destruct (getOwn (models w) this) as [m|] eqn:Hm.
  - destruct (cache m) as [l|] eqn:Hc; simpl.
    + unfold readCache. rewrite Hm, Hc. reflexivity.
    + unfold readCache. simpl. rewrite getOwn_setProp_same, Hs. reflexivity.
  - simpl. unfold readCache. rewrite Hm. reflexivity.
Qed.

(** X18. Reading a list a second time returns the same list and leaves the
    world as the first read left it. *)
Theorem getters_read_twice this w :
  objectGUIDs this (fst (objectGUIDs this w)) = objectGUIDs this w /\
  entityTypeIds this (fst (entityTypeIds this w)) = entityTypeIds this w /\
  entityIds this (fst (entityIds this w)) = entityIds this w.
Proof.
  repeat split; apply readCache_twice; reflexivity.
Qed.

Section Exactness.

Variable sceneComponents : string -> JsObj.t Component.
Variable isComponentType : string -> bool.
Variable Config : Type.
Variable cfgType : Config -> option string.
Variable construct : string -> string -> Config -> Component.

Local Abbreviation run :=
  (run sceneComponents isComponentType Config cfgType construct).
Local Abbreviation reachable :=
  (reachable sceneComponents isComponentType Config cfgType construct).
Local Abbreviation add :=
  (_addComponent sceneComponents isComponentType Config cfgType construct).
Local Abbreviation accepts :=
  (accepts sceneComponents isComponentType Config cfgType construct).

(** X22. After any history whatever, [objects] holds exactly the held
    components with [isObject], and [meshes] exactly those that are
    mesh-flagged too, under the same keys. *)
Theorem objects_and_meshes_exact ops this m k c :
  getOwn (models (run ops emptyWorld)) this = Some m ->
  (getOwn (objects m) k = Some c <->
   getOwn (components m) k = Some c /\ isObject c = true) /\
  (getOwn (meshes m) k = Some c <->
   getOwn (components m) k = Some c /\ isObject c && isMesh c = true).
Proof.
  intros Hm. revert k c. change (flaggedExactly m). revert this m Hm.
  apply (allModels_history sceneComponents isComponentType Config cfgType
           construct flaggedExactly); unfold flaggedExactly; simpl;
    try (intros; eauto; fail).
  - intros _ _ k c. split; split; try discriminate; intros []; discriminate.
  - intros m c H k c0. rewrite !getOwn_deleteProp.
    destruct (String.eqb k (id c)); [|apply H].
    split; split; try discriminate; intros []; discriminate.
  - intros m c H Hnew k c0. rewrite getOwn_setProp.
    destruct (H k c0) as [Ho Hme].
    destruct (String.eqb_spec k (id c)) as [->|Hne].
    + assert (Hno : getOwn (objects m) (id c) = None).
      { destruct (getOwn (objects m) (id c)) as [x|] eqn:E; [|reflexivity].
        apply (H (id c) x) in E. destruct E. congruence. }
      assert (Hnm : getOwn (meshes m) (id c) = None).
      { destruct (getOwn (meshes m) (id c)) as [x|] eqn:E; [|reflexivity].
        apply (H (id c) x) in E. destruct E. congruence. }
      destruct (isObject c) eqn:Io; simpl.
      * rewrite getOwn_setProp_same. split.
        -- split; [intros [= <-]; auto|intros [[= <-] _]; reflexivity].
        -- destruct (isMesh c) eqn:Im.
           ++ rewrite getOwn_setProp_same.
              split; [intros [= <-]; rewrite Io, Im; auto
                     |intros [[= <-] _]; reflexivity].
           ++ rewrite Hnm. split; [discriminate|].
              intros [[= <-] Hf]. rewrite Io, Im in Hf. discriminate.
      * rewrite Hno, Hnm. split; (split; [discriminate|]).
        -- intros [[= <-] Hf]. congruence.
        -- intros [[= <-] Hf]. rewrite Io in Hf. discriminate.
    + destruct (isObject c); simpl;
        [destruct (isMesh c)|];
        rewrite ?getOwn_setProp_other by assumption; split; assumption.
  - intros m _ k c. split; split; try discriminate; intros []; discriminate.
Qed.

Lemma entities_complete ops this m :
  getOwn (models (run ops emptyWorld)) this = Some m -> entitiesComplete m.
Proof.
  revert this m.
  apply (allModels_history sceneComponents isComponentType Config cfgType
           construct entitiesComplete); unfold entitiesComplete; simpl;
    try (intros; eauto; fail).
  - intros m c H k c0. rewrite getOwn_deleteProp.
    destruct (String.eqb_spec k (id c)) as [->|Hne]; [discriminate|].
    intros Ho Ht. destruct (truthy (entityType c));
      [rewrite getOwn_deleteProp_other by assumption|]; auto.
  - intros m c H _ k c0.
    destruct (isObject c); simpl; [|apply H].
    rewrite getOwn_setProp.
    destruct (String.eqb_spec k (id c)) as [->|Hne].
    + intros [= <-] Ht. destruct (truthy (entityType c));
        [apply getOwn_setProp_same|contradiction].
    + intros Ho Ht. destruct (truthy (entityType c));
        [rewrite getOwn_setProp_other by assumption|]; auto.
Qed.



Hypothesis scene_coherent : forall s k c,
  getOwn (sceneComponents s) k = Some c -> id c = k /\ scene c = s.

(** X23. In a reachable world [entities] holds exactly the objects that have
    an entity type. *)
Theorem entities_exact ops this m k c :
  wfHistory sceneComponents isComponentType Config cfgType construct
    emptyWorld ops ->
  getOwn (models (run ops emptyWorld)) this = Some m ->
  getOwn (entities m) k = Some c <->
  getOwn (objects m) k = Some c /\ truthy (entityType c) <> None.
Proof.
  intros Hwf Hm. split.
  - assert (Hr : reachable (run ops emptyWorld))
      by (apply reachable_run; [apply reachable_empty|exact Hwf]).
    apply (reachable_sound _ _ _ _ _ scene_coherent) in Hr.
    apply (ok_entities _ _ (ok_models _ _ Hr _ _ Hm)).
  - intros [Ho Ht]. apply (entities_complete _ _ _ Hm); assumption.
Qed.

End Exactness.

(** ** [_removeComponent] seen from outside *)

(** X21. Removing a component unlists it: its id is no key of [components],
    [objects] and [meshes]; with an entity type it leaves [entities],
    its sub-map of [entityTypes] and [entityIds]; with a guid the key
    equal to that guid leaves [guidObjects].  Entries under other ids
    are not touched. *)
Theorem remove_unlists this w m c :
  getOwn (models w) this = Some m ->
  let w' := onModel this (fun m => _removeComponent m c) w in
  exists m', getOwn (models w') this = Some m' /\
    getOwn (components m') (id c) = None /\
    getOwn (objects m') (id c) = None /\
    getOwn (meshes m') (id c) = None /\
    (forall et, truthy (entityType c) = Some et ->
       getOwn (entities m') (id c) = None /\
       (forall sub, getOwn (entityTypes m') et = Some sub ->
                    getOwn sub (id c) = None) /\
       ~ In (id c) (snd (entityIds this w'))) /\
    (forall g, truthy (guid c) = Some g ->
       getOwn (guidObjects m') g = None) /\
    (forall k, k <> id c ->
       getOwn (components m') k = getOwn (components m) k /\
       getOwn (objects m') k = getOwn (objects m) k /\
       getOwn (meshes m') k = getOwn (meshes m) k /\
       getOwn (entities m') k = getOwn (entities m) k).
Proof.
  intros Hm w'. exists (_removeComponent m c).
  assert (Hm' : getOwn (models w') this = Some (_removeComponent m c))
    by (unfold w'; rewrite getOwn_onModel, String.eqb_refl, Hm; reflexivity).
  split; [exact Hm'|]. simpl.
  rewrite !getOwn_deleteProp_same.
  split; [reflexivity|]. split; [reflexivity|]. split; [reflexivity|].
  split; [|split].
  - intros et H. rewrite H. split; [apply getOwn_deleteProp_same|]. split.
    + intros sub. unfold deleteFromSubMap, getProp.
      destruct (getOwn (entityTypes m) et) as [sub0|] eqn:E.
      * rewrite getOwn_setProp_same. intros [= <-].
        apply getOwn_deleteProp_same.
      * destruct (inherited et); rewrite E; discriminate.
    + unfold entityIds, readCache. rewrite Hm'. simpl. rewrite H. simpl.
      rewrite In_ownKeys, getOwn_deleteProp_same. tauto.
  - intros g H. rewrite H. apply getOwn_deleteProp_same.
  - intros k H. rewrite !getOwn_deleteProp_other by assumption.
    repeat split.
    destruct (truthy (entityType c)); [|reflexivity].
    apply getOwn_deleteProp_other, H.
Qed.

(** ** The further properties at work on the small scene *)

Section MoreWitnesses.

Import Demo DemoFacts.

Lemma tidy_coherent s k c :
  getOwn (tidyComponents s) k = Some c -> id c = k /\ scene c = s.
Proof.
  unfold tidyComponents.
  destruct (String.eqb_spec s "scene") as [->|_]; [|discriminate].
  cbn.
  repeat match goal with
         | |- context [String.eqb k ?x] =>
             destruct (String.eqb_spec k x) as [->|_];
             [cbn; intros [= <-]; split; reflexivity|]
         end;
    discriminate.
Qed.

Lemma tidy_protocol s k c :
  getOwn (tidyComponents s) k = Some c -> selfRemoves c = true.
Proof.
  unfold tidyComponents.
  destruct (String.eqb_spec s "scene") as [->|_]; [|discriminate].
  cbn.
  repeat match goal with
         | |- context [String.eqb k ?x] =>
             destruct (String.eqb_spec k x) as [->|_];
             [cbn; intros [= <-]; reflexivity|]
         end;
    discriminate.
Qed.

Lemma tidyWorld_reachable :
  reachable tidyComponents isComponentType Config cfgType construct
    tidyWorld.
Proof.
  apply reachable_run; [apply reachable_empty|].
  cbn. repeat split; reflexivity.
Qed.


Lemma clear_empties_five_maps_witness :
  exists m', getOwn (models (clear "A" world)) "A" = Some m' /\
             components m' = empty.
Proof.
  destruct (clear_empties_five_maps "A" world) as (m' & H1 & H2 & _).
  - vm_compute. discriminate.
  - exists m'. split; assumption.
Defined.

Lemma guid_and_type_lists_fresh_witness :
  snd (objectGUIDs "A" world) = ownKeys (guidObjects (modelAt "A" world)) /\
  snd (entityTypeIds "A" world)
    = ownKeys (entityTypes (modelAt "A" world)).
Proof.
  refine (guid_and_type_lists_fresh sceneComponents isComponentType Config
            cfgType construct demo_scene_coherent "A" world
            (modelAt "A" world) _ _).
  - apply world_reachable.
  - reflexivity.
Defined.

Lemma entityIds_fresh_under_protocol_witness :
  snd (entityIds "A" tidyWorld)
    = ownKeys (entities (modelAt "A" tidyWorld)).
Proof.
  refine (entityIds_fresh_under_protocol tidyComponents isComponentType
            Config cfgType construct tidy_coherent tidy_protocol "A"
            tidyWorld (modelAt "A" tidyWorld) _ _).
  - apply tidyWorld_reachable.
  - vm_compute. reflexivity.
Defined.

Lemma remove_absent_witness :
  components (_removeComponent (modelAt "B" world) wall1)
    = components (modelAt "B" world).
Proof.
  refine (proj1 (remove_absent (modelAt "B" world) wall1 _ _ _ _ _ _));
    try reflexivity.
  intros et sub _ H. vm_compute in H. discriminate.
Defined.

Lemma attach_remove_restores_witness :
  components (_removeComponent (attach (modelAt "B" world) wall1) wall1)
    = components (modelAt "B" world).
Proof.
  refine (proj1 (attach_remove_restores (modelAt "B" world) wall1 _ _ _ _));
    reflexivity.
Defined.

Lemma count_bounds_keys_witness :
  length (ownKeys (components (modelAt "A" world)))
    <= numComponents (modelAt "A" world).
Proof.
  refine (count_bounds_keys sceneComponents isComponentType Config cfgType
            construct history "A" (modelAt "A" world) _).
  reflexivity.
Defined.






Lemma add_plain_component_witness :
  exists m',
    getOwn (models (fst (add "B" (Instance geom1) world))) "B" = Some m' /\
    objects m' = objects (modelAt "B" world).
Proof.
  assert (Hacc : accepts sceneComponents isComponentType Config cfgType
                   construct (modelAt "B" world) (Instance geom1) geom1)
    by (repeat split).
  destruct (add_plain_component sceneComponents isComponentType Config
              cfgType construct "B" world (modelAt "B" world)
              (Instance geom1) geom1 eq_refl Hacc eq_refl)
    as (m' & H1 & H2 & _).
  exists m'. split; assumption.
Defined.

Lemma add_frame_witness :
  getOwn (models (fst (add "B" (Instance geom1) world))) "A"
    = getOwn (models world) "A".
Proof.
  refine (add_frame sceneComponents isComponentType Config cfgType construct
            "B" world (modelAt "B" world) (Instance geom1) "A" _ _ _).
  - reflexivity.
  - discriminate.
  - intros c [= <-]. vm_compute. discriminate.
Defined.



Lemma clear_frame_witness :
  getOwn (models (clear "A" world)) "B" = getOwn (models world) "B".
Proof.
  refine (proj2 (clear_frame sceneComponents isComponentType Config cfgType
                   construct demo_scene_coherent "A" world _) "B" _).
  - apply world_reachable.
  - discriminate.
Defined.

Lemma clear_notifies_the_held_witness :
  exists notified,
    events (clear "A" world) = events world ++ notified /\
    In (Destroyed wall2) notified.
Proof.
  destruct (clear_notifies_the_held sceneComponents isComponentType Config
              cfgType construct demo_scene_coherent "A" world
              (modelAt "A" world) world_reachable eq_refl)
    as (n & H1 & H2 & _).
  exists n. split; [exact H1|]. apply H2. vm_compute. tauto.
Defined.

Lemma single_owner_witness :
  getModelOf (modelOf world) wall1 = Some "A".
Proof.
  refine (proj1 (single_owner sceneComponents isComponentType Config cfgType
                   construct demo_scene_coherent "A" "A" world
                   (modelAt "A" world) (modelAt "A" world) "wall1" "wall1"
                   wall1 _ _ _ _ _)); try reflexivity.
  apply world_reachable.
Defined.

Lemma objects_and_meshes_exact_witness :
  getOwn (meshes (modelAt "A" world)) "m1" = Some m1 <->
  getOwn (components (modelAt "A" world)) "m1" = Some m1 /\
  isObject m1 && isMesh m1 = true.
Proof.
  refine (proj2 (objects_and_meshes_exact sceneComponents isComponentType
                   Config cfgType construct history "A" (modelAt "A" world)
                   "m1" m1 _)).
  reflexivity.
Defined.

Lemma entities_exact_witness :
  getOwn (entities (modelAt "A" world)) "wall1" = Some wall1 <->
  getOwn (objects (modelAt "A" world)) "wall1" = Some wall1 /\
  truthy (entityType wall1) <> None.
Proof.
  refine (entities_exact sceneComponents isComponentType Config cfgType
            construct demo_scene_coherent history "A" (modelAt "A" world)
            "wall1" wall1 _ _).
  - apply history_wf.
  - reflexivity.
Defined.



Lemma remove_unlists_witness :
  exists m',
    getOwn (models (perform (Remove "A" wall1) world)) "A" = Some m' /\
    getOwn (components m') "wall1" = None.
Proof.
  destruct (remove_unlists "A" world (modelAt "A" world) wall1 eq_refl)
    as (m' & H1 & H2 & _).
  exists m'. split; assumption.
Defined.

End MoreWitnesses.
